(** * nv_tacotron_dataset: manifest loading, feature extraction, dataset
      access and batch collation of [codes/data/audio/nv_tacotron_dataset.py]

    The development is a shallow embedding of the Python module.

    - Python integers are [Z]; tensor sizes and list positions are [nat].
    - Python [str] values that come from files are lists of Unicode code
      points ([pystr]); dictionary keys and mode selectors, which are literals
      of the source, are [string].
    - Float tensors hold rationals ([Q]).  The module only stores [0.0] and
      [1.0], copies values, compares them with [-1] and [1], clips them and
      computes [(x+1)/2]; rounding, infinities and NaN are not modelled.
    - A call that can raise returns a [result]; code that prints or uses the
      process-wide [random] generator is a function of the interpreter state
      ([pystate]).
    - The external collaborators (torch's sort and interpolation, the audio
      decoders, the tokenizer, the STFT, the file system, the Mersenne
      twister behind [random]) are the fields of two classes, [TorchSort] and
      [Env]; the module's own code is written out over them. *)

From Stdlib Require Import String Ascii.
From Stdlib Require Import ZArith QArith Qround List Bool Lia Lqa.
From Stdlib Require Import Permutation Sorted.
Import ListNotations.
Local Open Scope Z_scope.

(* ================================================================= *)
(** ** Python values, exceptions and sequence operations *)

Inductive exn : Type :=
| NotImplementedError
| AssertionError
| IndexError
| ZeroDivisionError
| RuntimeError
| RecursionError
| TypeError
| ValueError
| AttributeError
| OSError.

Inductive result (A : Type) : Type :=
| Ok (a : A)
| Raise (e : exn).
Arguments Ok {A} a.
Arguments Raise {A} e.

Definition rbind {A B} (r : result A) (k : A -> result B) : result B :=
  match r with
  | Ok a => k a
  | Raise e => Raise e
  end.

Notation "x <-- r ;; k" := (rbind r (fun x => k))
  (at level 61, r at next level, right associativity).

(** [for x in l: ...] where the body may raise: the first exception stops
    the loop. *)
Fixpoint rmap {A B} (f : A -> result B) (l : list A) : result (list B) :=
  match l with
  | [] => Ok []
  | x :: l' => y <-- f x ;; ys <-- rmap f l' ;; Ok (y :: ys)
  end.

(** A [str] as its code points. *)
Definition pystr : Type := list N.

Definition str (s : string) : pystr :=
  map N_of_ascii (list_ascii_of_string s).

(** [l[i]] for a Python list and a Python integer: negative indices count
    from the end, anything else out of range raises [IndexError]. *)
Definition py_index {A} (l : list A) (i : Z) : result A :=
  let n := Z.of_nat (length l) in
  let j := if i <? 0 then i + n else i in
  if (j <? 0) || (n <=? j) then Raise IndexError
  else match nth_error l (Z.to_nat j) with
       | Some x => Ok x
       | None => Raise IndexError
       end.

(** Start position of the slice [row[s:]] of a sequence of length [len]. *)
Definition slice_start (s : Z) (len : nat) : nat :=
  if s <? 0 then Z.to_nat (Z.max (s + Z.of_nat len) 0)
  else Nat.min (Z.to_nat s) len.

(** [row[s:] = v] *)
Definition fill_from {A} (row : list A) (s : Z) (v : A) : list A :=
  let k := slice_start s (length row) in
  firstn k row ++ repeat v (length row - k).

(** [row[:len(src)] = src] on one-dimensional tensors.  The slice is cut at
    the end of [row]; torch accepts a source of the slice's size, or of size
    one (broadcast), and raises otherwise. *)
Definition assign_prefix {A} (row src : list A) : result (list A) :=
  let w := Nat.min (length src) (length row) in
  if (length src =? w)%nat then Ok (src ++ skipn w row)
  else if (length src =? 1)%nat then Ok row
  else Raise RuntimeError.

(* ================================================================= *)
(** ** Tensors *)

(** A two-dimensional float tensor [size0 x size1], kept as its rows.  The
    second size is a field of its own: a tensor without rows still has one. *)
Record tensor2 : Type := mkTensor2 {
  size1 : nat;
  rows : list (list Q)
}.

Definition size0 (m : tensor2) : nat := length (rows m).

Definition wf_tensor2 (m : tensor2) : Prop :=
  Forall (fun r => length r = size1 m) (rows m).

(** [torch.sort(v, dim=0, descending=True)]: the sorted values and the
    positions they came from.  Nothing is promised about ties. *)
Class TorchSort : Type := {
  torch_sort : list Z -> list Z * list nat;
  torch_sort_perm : forall l,
    Permutation (snd (torch_sort l)) (seq 0 (length l));
  torch_sort_gather : forall l,
    fst (torch_sort l) = map (fun i => nth i l 0) (snd (torch_sort l));
  torch_sort_desc : forall l,
    StronglySorted Z.ge (fst (torch_sort l))
}.

(* ================================================================= *)
(** ** TextMelCollate *)

(** One element of the list handed to the collator:
    [(text_normalized, mel_normalized, filename)]. *)
Record sample : Type := mkSample {
  s_text : list Z;
  s_mel : tensor2;
  s_fname : pystr
}.

(** The dictionary returned by [TextMelCollate.__call__]. *)
Record batch_out : Type := mkBatch {
  padded_text : list (list Z);
  input_lengths : list Z;
  padded_mel : list tensor2;
  padded_gate : list (list Q);
  output_lengths : list Z;
  filenames : list pystr
}.

Definition zeros (n : nat) : list Q := repeat 0%Q n.

(** [max([x[1].size(1) for x in batch])] on a list that is not empty. *)
Definition max_frames (batch : list sample) : nat :=
  fold_right Nat.max 0%nat (map (fun x => size1 (s_mel x)) batch).

(** Lines 166-169: round the longest mel up with Python's [%]. *)
Definition round_target_len (n_frames_per_step : Z) (m : Z) : result Z :=
  if n_frames_per_step =? 0 then Raise ZeroDivisionError
  else if negb (m mod n_frames_per_step =? 0) then
    let m' := m + (n_frames_per_step - m mod n_frames_per_step) in
    if m' mod n_frames_per_step =? 0 then Ok m' else Raise AssertionError
  else Ok m.

(** [mel_padded[i, :, :mel.size(1)] = mel] on the zero row block
    [num_mels x len]. *)
Definition assign_mel (num_mels len : nat) (mel : tensor2) : result tensor2 :=
  let w := Nat.min (size1 mel) len in
  let put := fun r => firstn w r ++ zeros (len - w) in
  if negb ((size1 mel =? w)%nat || (size1 mel =? 1)%nat) then Raise RuntimeError
  else if (size0 mel =? num_mels)%nat then
    Ok (mkTensor2 len (map put (rows mel)))
  else if (size0 mel =? 1)%nat then
    Ok (mkTensor2 len (repeat (put (hd [] (rows mel))) num_mels))
  else Raise RuntimeError.

(** [gate_padded[i, mel.size(1)-1:] = 1] on the zero row of length [len]. *)
Definition gate_row (len : nat) (frames : nat) : list Q :=
  fill_from (zeros len) (Z.of_nat frames - 1) 1%Q.

Section Collate.
Context {TS : TorchSort}.

Definition collate_text (batch : list sample) (max_input_len : nat)
    (ids : list nat) : result (list (list Z * pystr)) :=
  rmap (fun id =>
          match nth_error batch id with
          | None => Raise IndexError
          | Some x =>
              row <-- assign_prefix (repeat 0 max_input_len) (s_text x) ;;
              Ok (row, s_fname x)
          end) ids.

Definition collate_mel (batch : list sample) (num_mels len : nat)
    (ids : list nat) : result (list (tensor2 * list Q * Z)) :=
  rmap (fun id =>
          match nth_error batch id with
          | None => Raise IndexError
          | Some x =>
              m <-- assign_mel num_mels len (s_mel x) ;;
              Ok (m, gate_row len (size1 (s_mel x)),
                  Z.of_nat (size1 (s_mel x)))
          end) ids.

(** [TextMelCollate(n_frames_per_step)(batch)] *)
Definition collate (n_frames_per_step : Z) (batch : list sample)
    : result batch_out :=
  let (lens, ids) :=
    torch_sort (map (fun x => Z.of_nat (length (s_text x))) batch) in
  match lens with
  | [] => Raise IndexError
  | max_input_len :: _ =>
      tf <-- collate_text batch (Z.to_nat max_input_len) ids ;;
      match batch with
      | [] => Raise IndexError
      | b0 :: _ =>
          let num_mels := size0 (s_mel b0) in
          max_target_len <--
            round_target_len n_frames_per_step
              (Z.of_nat (max_frames batch)) ;;
          if max_target_len <? 0 then Raise RuntimeError
          else
            mg <-- collate_mel batch num_mels (Z.to_nat max_target_len) ids ;;
            Ok (mkBatch (map fst tf) lens
                        (map (fun x => fst (fst x)) mg)
                        (map (fun x => snd (fst x)) mg)
                        (map snd mg)
                        (map snd tf))
      end
  end.
End Collate.

(** *** A stable descending insertion sort, one admissible [torch.sort] *)

Fixpoint insert_desc (x : Z * nat) (l : list (Z * nat)) : list (Z * nat) :=
  match l with
  | [] => [x]
  | y :: l' => if fst y <=? fst x then x :: l else y :: insert_desc x l'
  end.

Definition isort_desc (l : list (Z * nat)) : list (Z * nat) :=
  fold_right insert_desc [] l.

Definition stable_sort (l : list Z) : list Z * list nat :=
  let s := isort_desc (combine l (seq 0 (length l))) in
  (map fst s, map snd s).

(* ================================================================= *)
(** ** Manifest loader: the [mozilla_cv] format *)

(** The code points [str.strip()] removes (those with [str.isspace()]). *)
Definition is_space (c : N) : bool :=
  (((9 <=? c) && (c <=? 13)) || ((28 <=? c) && (c <=? 32))
   || (c =? 133) || (c =? 160) || (c =? 5760)
   || ((8192 <=? c) && (c <=? 8202))
   || (c =? 8232) || (c =? 8233) || (c =? 8239) || (c =? 8287)
   || (c =? 12288))%N.

Fixpoint lstrip (s : pystr) : pystr :=
  match s with
  | [] => []
  | c :: s' => if is_space c then lstrip s' else s
  end.

Definition strip (s : pystr) : pystr := rev (lstrip (rev (lstrip s))).

(** [s.split(sep)] for a separator of one character: one more piece than
    there are separators, empty pieces kept. *)
Fixpoint split_on (sep : N) (s : pystr) : list pystr :=
  match s with
  | [] => [[]]
  | c :: s' =>
      if (c =? sep)%N then [] :: split_on sep s'
      else match split_on sep s' with
           | [] => [[c]]
           | w :: ws => (c :: w) :: ws
           end
  end.

Definition tab : N := 9%N.

(** The columns of one line of the manifest: [line.strip().split('\t')]. *)
Definition columns (line : pystr) : list pystr := split_on tab (strip line).

(** One manifest entry: [[relative audio path, transcript]]. *)
Definition entry : Type := (pystr * pystr)%type.

(** [[f'clips/{component[1]}', component[2]]] *)
Definition mozilla_cv_entry (component : list pystr) : result entry :=
  c1 <-- py_index component 1 ;;
  c2 <-- py_index component 2 ;;
  Ok (str "clips/" ++ c1, c2).

(** The body of [load_mozilla_cv] on the lines the open file yields. *)
Definition mozilla_cv_entries (lines : list pystr) : result (list entry) :=
  let components := tl (map columns lines) in
  rmap mozilla_cv_entry components.

(* ================================================================= *)
(** ** Configuration and external collaborators *)

(** The parameters handed to [layers.TacotronSTFT]. *)
Record stft : Type := mkStft {
  filter_length : Z;
  hop_length : Z;
  win_length : Z;
  n_mel_channels : nat;
  stft_sampling_rate : Z;
  mel_fmin : Q;
  mel_fmax : Q
}.

(** The options [__init__] reads.  Those read through [opt_get] may be
    unset. *)
Record hparams : Type := mkHparams {
  hp_path : pystr;
  hp_fetcher_mode : option string;
  hp_text_cleaners : list pystr;
  hp_max_wav_value : Q;
  hp_sampling_rate : Z;
  hp_load_mel_from_disk : bool;
  hp_return_wavs : option bool;
  hp_input_sample_rate : option Z;
  hp_filter_length : Z;
  hp_hop_length : Z;
  hp_win_length : Z;
  hp_n_mel_channels : nat;
  hp_mel_fmin : Q;
  hp_mel_fmax : Q;
  hp_seed : Z;
  hp_max_mel_length : option Z;
  hp_max_text_length : option Z;
  hp_needs_collate : option bool
}.

(** Modelled from the spec: [utils.util.opt_get], which is not under src/:
    an option that is set has its value, one that is not has the default
    ([input_sample_rate] defaults to [sampling_rate], [needs_collate] to
    true). *)
Definition opt_get {A} (v : option A) (default : A) : A :=
  match v with
  | Some x => x
  | None => default
  end.

(** What the module calls and does not define.  [randbelow g n] is the
    generator's draw below [n]; [random_seed] is the state [random.seed]
    installs; [TacotronSTFT] is the constructor of [layers], which is handed
    the parameters and may refuse them. *)
Class Env : Type := {
  open_utf8 : pystr -> result (list pystr);
  load_filepaths_and_text : pystr -> result (list entry);
  load_wav_to_torch : pystr -> result (list Q * Z);
  audio_from_file : pystr -> result (list Q * Z);
  np_load : pystr -> result tensor2;
  os_path_dirname : pystr -> pystr;
  os_path_join : pystr -> pystr -> pystr;
  text_to_sequence : pystr -> list pystr -> list Z;
  interpolate_area : list Q -> Q -> result (list Q);
  mel_spectrogram : stft -> list Q -> result tensor2;
  TacotronSTFT : stft -> result stft;
  rng : Type;
  random_seed : Z -> rng;
  randbelow : rng -> nat -> nat * rng;
  randbelow_lt : forall g n, (0 < n)%nat -> (fst (randbelow g n) < n)%nat
}.

(** The attributes of a constructed [TextMelLoader]. *)
Record TextMelLoader : Type := mkLoader {
  path : pystr;
  audiopaths_and_text : list entry;
  text_cleaners : list pystr;
  max_wav_value : Q;
  sampling_rate : Z;
  load_mel_from_disk : bool;
  return_wavs : bool;
  input_sample_rate : Z;
  self_stft : stft;
  max_mel_len : option Z;
  max_text_len : option Z;
  needs_collate : bool
}.

(** What the module prints. *)
Inductive event : Type :=
| LowSampleRate (filename : pystr) (native requested : Z)
| AudioRangeError (filename : pystr) (lo hi : Q)
| InvalidSample (index : Z) (mel_len text_len : nat) (fname : pystr).

(** The values of the dictionary [__getitem__] returns. *)
Inductive value : Type :=
| VText (t : list Z)
| VLong (n : Z)
| VMel (m : tensor2)
| VStr (s : pystr).

(** What [__getitem__] returns: a dictionary (in insertion order) or the
    tuple [(t, m, p)]. *)
Inductive item : Type :=
| ItemDict (d : list (string * value))
| ItemTuple (t : list Z) (m : tensor2) (p : pystr).

(** *** Float helpers *)

Definition Qltb (x y : Q) : bool := negb (Qle_bool y x).

(** [x.clip(lo, hi)] *)
Definition clip (x lo hi : Q) : Q :=
  if Qltb x lo then lo else if Qltb hi x then hi else x.

(** [audio.min()] and [audio.max()]: torch raises on a tensor without
    elements. *)
Definition tensor_min (l : list Q) : result Q :=
  match l with
  | [] => Raise RuntimeError
  | x :: l' => Ok (fold_left (fun a b => if Qltb b a then b else a) l' x)
  end.

Definition tensor_max (l : list Q) : result Q :=
  match l with
  | [] => Raise RuntimeError
  | x :: l' => Ok (fold_left (fun a b => if Qltb a b then b else a) l' x)
  end.

(** [a / b] on Python integers. *)
Definition truediv (a b : Z) : result Q :=
  if b =? 0 then Raise ZeroDivisionError else Ok (inject_Z a / inject_Z b)%Q.

Fixpoint endswith_rev (s suffix : pystr) : bool :=
  match suffix, s with
  | [], _ => true
  | _ :: _, [] => false
  | a :: suffix', b :: s' => (a =? b)%N && endswith_rev s' suffix'
  end.

(** [s.endswith(suffix)] *)
Definition endswith (s suffix : pystr) : bool :=
  endswith_rev (rev s) (rev suffix).

(** [F.pad(t, (0, k))] on the last dimension: zeros on the right, a negative
    [k] crops. *)
Definition pad_right {A} (zero : A) (r : list A) (k : Z) : list A :=
  if k <? 0 then firstn (Z.to_nat (Z.of_nat (length r) + k)) r
  else r ++ repeat zero (Z.to_nat k).

Definition pad_mel (m : tensor2) (k : Z) : tensor2 :=
  mkTensor2 (Z.to_nat (Z.of_nat (size1 m) + k))
            (map (fun r => pad_right 0%Q r k) (rows m)).

(** [x[i] = v] when [i] is in range. *)
Fixpoint set_nth {A} (x : list A) (i : nat) (v : A) : list A :=
  match x, i with
  | [], _ => []
  | _ :: x', O => v :: x'
  | a :: x', S i' => a :: set_nth x' i' v
  end.

(** [x[i], x[j] = x[j], x[i]] for positions in range. *)
Definition swap {A} (x : list A) (i j : nat) : list A :=
  match nth_error x i, nth_error x j with
  | Some a, Some b => set_nth (set_nth x i b) j a
  | _, _ => x
  end.

(* ================================================================= *)
(** ** TextMelLoader *)

Section Loader.
Context {E : Env}.

(** The part of the interpreter state the module touches: the state of the
    process-wide [random] generator and what was printed, oldest first. *)
Record pystate : Type := mkState {
  st_random : rng;
  st_stdout : list event
}.

(** A computation: it ends with a value or an exception, in a new state. *)
Definition M (A : Type) : Type := pystate -> result A * pystate.

Definition ret {A} (a : A) : M A := fun st => (Ok a, st).

Definition raise {A} (e : exn) : M A := fun st => (Raise e, st).

Definition bind {A B} (m : M A) (k : A -> M B) : M B :=
  fun st =>
    match m st with
    | (Ok a, st') => k a st'
    | (Raise e, st') => (Raise e, st')
    end.

Definition lift {A} (r : result A) : M A := fun st => (r, st).

Definition print (ev : event) : M unit :=
  fun st => (Ok tt, mkState (st_random st) (st_stdout st ++ [ev])).

Definition assert (b : bool) : M unit :=
  if b then ret tt else raise AssertionError.

Notation "x <- m ; k" := (bind m (fun x => k))
  (at level 61, m at next level, right associativity).
Notation "m ;;; k" := (bind m (fun _ => k))
  (at level 61, right associativity).

(** [random.seed(a)] *)
Definition seed (a : Z) : M unit :=
  fun st => (Ok tt, mkState (random_seed a) (st_stdout st)).

(** [random.randint(a, b)] *)
Definition randint (a b : Z) : M Z :=
  fun st =>
    let width := b + 1 - a in
    if width <=? 0 then (Raise ValueError, st)
    else
      let (r, g) := randbelow (st_random st) (Z.to_nat width) in
      (Ok (a + Z.of_nat r), mkState g (st_stdout st)).

(** The loop of [random.shuffle(x)]:
    [for i in reversed(range(1, len(x))): j = randbelow(i + 1); swap]. *)
Fixpoint shuffle_from {A} (i : nat) (x : list A) (g : rng) : list A * rng :=
  match i with
  | O => (x, g)
  | S i' =>
      let (j, g') := randbelow g (S i) in
      shuffle_from i' (swap x i j) g'
  end.

Definition shuffle {A} (x : list A) : M (list A) :=
  fun st =>
    let (x', g) := shuffle_from (length x - 1) x (st_random st) in
    (Ok x', mkState g (st_stdout st)).

(** [load_mozilla_cv(filename)] *)
Definition load_mozilla_cv (filename : pystr) : result (list entry) :=
  lines <-- open_utf8 filename ;; mozilla_cv_entries lines.

(** [TextMelLoader.__init__(hparams)] *)
Definition init (hp : hparams) : M TextMelLoader :=
  let self_path := os_path_dirname (hp_path hp) in
  let fetcher_mode := opt_get (hp_fetcher_mode hp) "lj"%string in
  fetcher_fn <-
    (if String.eqb fetcher_mode "lj" then ret load_filepaths_and_text
     else if String.eqb fetcher_mode "mozilla_cv" then ret load_mozilla_cv
     else raise NotImplementedError) ;
  entries <- lift (fetcher_fn (hp_path hp)) ;
  let self_return_wavs := opt_get (hp_return_wavs hp) false in
  let self_input_sample_rate :=
    opt_get (hp_input_sample_rate hp) (hp_sampling_rate hp) in
  assert (negb (hp_load_mel_from_disk hp && self_return_wavs)) ;;;
  the_stft <-
    lift (TacotronSTFT
            (mkStft (hp_filter_length hp) (hp_hop_length hp) (hp_win_length hp)
                    (hp_n_mel_channels hp) (hp_sampling_rate hp)
                    (hp_mel_fmin hp) (hp_mel_fmax hp))) ;
  seed (hp_seed hp) ;;;
  shuffled <- shuffle entries ;
  let self_needs_collate := opt_get (hp_needs_collate hp) true in
  (if negb self_needs_collate
   then assert (match hp_max_mel_length hp, hp_max_text_length hp with
                | Some _, Some _ => true
                | _, _ => false
                end)
   else ret tt) ;;;
  ret (mkLoader self_path shuffled (hp_text_cleaners hp)
                (hp_max_wav_value hp) (hp_sampling_rate hp)
                (hp_load_mel_from_disk hp) self_return_wavs
                self_input_sample_rate the_stft
                (hp_max_mel_length hp) (hp_max_text_length hp)
                self_needs_collate).

(** *** get_mel *)

(** Lines 71-76: decode the file. *)
Definition load_audio (self : TextMelLoader) (filename : pystr)
    : result (list Q * Z) :=
  if endswith filename (str ".wav") then
    p <-- load_wav_to_torch filename ;;
    Ok (map (fun x => (x / max_wav_value self)%Q) (fst p), snd p)
  else audio_from_file filename.

(** Line 82: [(audio.squeeze().clip(-1,1)+1)/2] *)
Definition remap (x : Q) : Q := ((clip x (-1) 1 + 1) / 2)%Q.

(** Lines 78-82: bring the waveform to [input_sample_rate].  A waveform is
    kept as the list of its samples; the rank [squeeze()] leaves it with (none
    when a single sample is left) is not modelled. *)
Definition resample_native (self : TextMelLoader) (filename : pystr)
    (audio : list Q) (native_rate : Z) : M (list Q) :=
  if negb (native_rate =? input_sample_rate self) then
    (if native_rate <? input_sample_rate self
     then print (LowSampleRate filename native_rate (input_sample_rate self))
     else ret tt) ;;;
    scale <- lift (truediv (input_sample_rate self) native_rate) ;
    audio' <- lift (interpolate_area audio scale) ;
    ret (map remap audio')
  else ret audio.

(** The test of line 83. *)
Definition out_of_range (lo hi : Q) : bool :=
  Qltb lo (-1) || Qltb 1 hi.

(** Lines 88-90: bring the waveform to [sampling_rate]. *)
Definition resample_target (self : TextMelLoader) (audio : list Q)
    : result (list Q) :=
  if negb (input_sample_rate self =? sampling_rate self) then
    ratio <-- truediv (sampling_rate self) (input_sample_rate self) ;;
    interpolate_area audio ratio
  else Ok audio.

(** Lines 86-95: the second resampling and the features. *)
Definition features (self : TextMelLoader) (audio : list Q)
    : result tensor2 :=
  audio_norm <-- resample_target self audio ;;
  if return_wavs self then Ok (mkTensor2 (length audio_norm) [audio_norm])
  else mel_spectrogram (self_stft self) audio_norm.

(** Lines 83-95 on the waveform at [input_sample_rate]. *)
Definition check_and_extract (self : TextMelLoader) (filename : pystr)
    (audio : list Q) : M (option tensor2) :=
  lo <- lift (tensor_min audio) ;
  hi <- lift (tensor_max audio) ;
  if out_of_range lo hi then
    print (AudioRangeError filename lo hi) ;;;
    ret None
  else
    melspec <- lift (features self audio) ;
    ret (Some melspec).

(** [TextMelLoader.get_mel(filename)]; [None] is Python's [None]. *)
Definition get_mel (self : TextMelLoader) (filename : pystr)
    : M (option tensor2) :=
  if negb (load_mel_from_disk self) then
    p <- lift (load_audio self filename) ;
    audio <- resample_native self filename (fst p) (snd p) ;
    check_and_extract self filename audio
  else
    melspec <- lift (np_load filename) ;
    assert (size0 melspec =? n_mel_channels (self_stft self))%nat ;;;
    ret (Some melspec).

(** [TextMelLoader.get_text(text)] *)
Definition get_text (self : TextMelLoader) (text : pystr) : list Z :=
  text_to_sequence text (text_cleaners self).

(** [TextMelLoader.get_mel_text_pair(audiopath_and_text)] *)
Definition get_mel_text_pair (self : TextMelLoader) (e : entry)
    : M (list Z * option tensor2 * pystr) :=
  let audiopath := os_path_join (path self) (fst e) in
  let text := get_text self (snd e) in
  mel <- get_mel self audiopath ;
  ret (text, mel, fst e).

(** *** __getitem__ *)

(** [cap is not None and n > cap] *)
Definition exceeds (cap : option Z) (n : nat) : bool :=
  match cap with
  | None => false
  | Some c => c <? Z.of_nat n
  end.

(** The test of lines 110-112. *)
Definition invalid (self : TextMelLoader) (t : list Z) (m : option tensor2)
    : bool :=
  match m with
  | None => true
  | Some m' =>
      exceeds (max_mel_len self) (size1 m')
      || exceeds (max_text_len self) (length t)
  end.

(** Lines 118-132: what is returned for a sample that passed the test. *)
Definition deliver (self : TextMelLoader) (t : list Z) (m : tensor2)
    (p : pystr) : result item :=
  let orig_output := size1 m in
  let orig_text_len := length t in
  if negb (needs_collate self) then
    match max_mel_len self, max_text_len self with
    | Some mm, Some mt =>
        let m' := if negb (Z.of_nat (size1 m) =? mm)
                  then pad_mel m (mm - Z.of_nat (size1 m)) else m in
        let t' := if negb (Z.of_nat (length t) =? mt)
                  then pad_right 0 t (mt - Z.of_nat (length t)) else t in
        Ok (ItemDict [("padded_text"%string, VText t');
                      ("input_lengths"%string, VLong (Z.of_nat orig_text_len));
                      ("padded_mel"%string, VMel m');
                      ("output_lengths"%string, VLong (Z.of_nat orig_output));
                      ("filenames"%string, VStr p)])
    | _, _ => Raise TypeError
    end
  else Ok (ItemTuple t m p).

(** [TextMelLoader.__getitem__(index)].  [depth] is the number of nested
    calls of [__getitem__] the interpreter's stack still takes; beyond it
    Python raises [RecursionError]. *)
Fixpoint getitem (depth : nat) (self : TextMelLoader) (index : Z)
    : M item :=
  match depth with
  | O => raise RecursionError
  | S depth' =>
      e <- lift (py_index (audiopaths_and_text self) index) ;
      tmp <- get_mel_text_pair self e ;
      let t := fst (fst tmp) in
      let m := snd (fst tmp) in
      let p := snd tmp in
      if invalid self t m then
        match m with
        | Some m' => print (InvalidSample index (size1 m') (length t) p)
        | None => ret tt
        end ;;;
        rv <- randint 0 (Z.of_nat (length (audiopaths_and_text self)) - 1) ;
        getitem depth' self rv
      else
        match m with
        | Some m' => lift (deliver self t m' p)
        | None => raise AttributeError
        end
  end.
End Loader.

(* ================================================================= *)
(** ** __len__ and the loop of dump_mels_to_disk *)

Section Dump.
Context {E : Env}.

(** [TextMelLoader.__len__()] *)
Definition dataset_len (self : TextMelLoader) : nat :=
  length (audiopaths_and_text self).



End Dump.

(* ================================================================= *)
(** ** A small concrete world

    The classes above leave the collaborators open.  To run the module on
    concrete inputs they are fixed here: a disk given as tables, torch's area
    interpolation, and a generator whose state is the list of the draws still
    to come (it draws [0] once the list is used up). *)

Definition qsum (l : list Q) : Q := fold_right Qplus 0%Q l.

Definition mean (l : list Q) : Q :=
  Qred (qsum l / inject_Z (Z.of_nat (length l))).

(** [adaptive_avg_pool1d]: output [i] is the mean of the inputs from
    [floor(i*len/out)] up to [ceil((i+1)*len/out)]. *)
Definition adaptive_avg_pool1d (x : list Q) (out : nat) : list Q :=
  map (fun i =>
         let lo := (i * length x / out)%nat in
         let hi := (((i + 1) * length x + out - 1) / out)%nat in
         mean (firstn (hi - lo) (skipn lo x)))
      (seq 0 out).

(** [F.interpolate(x, scale_factor=scale, mode='area')] on one channel. *)
Definition area_interpolate (x : list Q) (scale : Q) : result (list Q) :=
  Ok (adaptive_avg_pool1d x
        (Z.to_nat (Qfloor (inject_Z (Z.of_nat (length x)) * scale)))).

Record disk : Type := mkDisk {
  d_lines : list (pystr * list pystr);
  d_pairs : list (pystr * list entry);
  d_audio : list (pystr * (list Q * Z));
  d_mels : list (pystr * tensor2)
}.

Fixpoint pystr_eqb (a b : pystr) : bool :=
  match a, b with
  | [], [] => true
  | x :: a', y :: b' => (x =? y)%N && pystr_eqb a' b'
  | _, _ => false
  end.

Fixpoint lookup {A} (k : pystr) (t : list (pystr * A)) : result A :=
  match t with
  | [] => Raise OSError
  | (k', v) :: t' => if pystr_eqb k k' then Ok v else lookup k t'
  end.

Definition script_randbelow (g : list nat) (n : nat) : nat * list nat :=
  match g with
  | [] => (0%nat, [])
  | d :: g' => ((d mod n)%nat, g')
  end.

(** One frame per sample, the same in every channel: enough to give the
    features a frame count. *)
Definition toy_mel_spectrogram (s : stft) (audio : list Q) : result tensor2 :=
  Ok (mkTensor2 (length audio) (repeat audio (n_mel_channels s))).

(* ================================================================= *)
(** ** Notions used to state the properties *)

Definition no_sample : sample := mkSample [] (mkTensor2 0 []) [].

(** Sample [i] of the batch. *)
Definition pick (batch : list sample) (i : nat) : sample :=
  nth i batch no_sample.

Definition text_len (x : sample) : nat := length (s_text x).
Definition frame_count (x : sample) : nat := size1 (s_mel x).

(** The longest token sequence of the batch. *)
Definition max_text (batch : list sample) : nat :=
  fold_right Nat.max 0%nat (map text_len batch).

(** The longest mel of the batch, rounded up to a multiple of [n]. *)
Definition target_len (n : Z) (batch : list sample) : nat :=
  let m := Z.of_nat (max_frames batch) in
  Z.to_nat (if m mod n =? 0 then m else m + (n - m mod n)).

(** A token sequence, left-aligned in a zero row of length [len]. *)
Definition pad_text_row (len : nat) (t : list Z) : list Z :=
  t ++ repeat 0 (len - length t).

(** A mel, left-aligned in a zero block of [len] frames. *)
Definition pad_mel_block (len : nat) (m : tensor2) : tensor2 :=
  mkTensor2 len (map (fun r => firstn (size1 m) r ++ zeros (len - size1 m))
                     (rows m)).

(** Every mel of the batch has as many channels as the first one. *)
Definition same_channels (batch : list sample) : Prop :=
  Forall (fun x => size0 (s_mel x) = size0 (s_mel (pick batch 0))) batch.

(** The parameters lines 48-51 hand to [layers.TacotronSTFT]. *)
Definition stft_params (hp : hparams) : stft :=
  mkStft (hp_filter_length hp) (hp_hop_length hp) (hp_win_length hp)
         (hp_n_mel_channels hp) (hp_sampling_rate hp)
         (hp_mel_fmin hp) (hp_mel_fmax hp).

(** The two inconsistencies of a configuration, in the specification's
    words: no dynamic collation without both length caps, and precomputed
    mels together with raw waveforms. *)
Definition inconsistent (hp : hparams) : bool :=
  (negb (opt_get (hp_needs_collate hp) true)
   && match hp_max_mel_length hp, hp_max_text_length hp with
      | Some _, Some _ => false
      | _, _ => true
      end)
  || (hp_load_mel_from_disk hp && opt_get (hp_return_wavs hp) false).

(** A value the test of line 83 objects to. *)
Definition outside (v : Q) : Prop := (v < -1)%Q \/ (1 < v)%Q.

(** A value it accepts. *)
Definition inside (v : Q) : Prop := (-1 <= v <= 1)%Q.

Definition item_keys (it : item) : list string :=
  match it with
  | ItemDict d => map fst d
  | ItemTuple _ _ _ => []
  end.


(** [sep.join(cols)] *)
Fixpoint join (sep : N) (cols : list pystr) : pystr :=
  match cols with
  | [] => []
  | c :: cols' =>
      match cols' with
      | [] => c
      | _ :: _ => c ++ sep :: join sep cols'
      end
  end.

Definition blank (s : pystr) : Prop := Forall (fun c => is_space c = true) s.

(** [line] is the row of the tab-separated columns [cols]: the columns
    contain no tab, the row neither begins nor ends with white space, and the
    line holds nothing but white space around it (a line terminator, for
    one). *)
Definition row_of (line : pystr) (cols : list pystr) : Prop :=
  exists lead trail,
    line = lead ++ join tab cols ++ trail
    /\ blank lead /\ blank trail
    /\ Forall (fun c => ~ In tab c) cols
    /\ join tab cols <> []
    /\ is_space (hd 0%N (join tab cols)) = false
    /\ is_space (last (join tab cols) 0%N) = false.

(** The samples read back from a collated batch: every row cut at its
    recorded length. *)
Definition unpad_sample (row : list Z) (len : Z) (m : tensor2) (o : Z)
    (f : pystr) : sample :=
  mkSample (firstn (Z.to_nat len) row)
           (mkTensor2 (Z.to_nat o) (map (firstn (Z.to_nat o)) (rows m)))
           f.

Definition unpad (b : batch_out) : list sample :=
  map (fun x => unpad_sample (fst (fst (fst (fst x)))) (snd (fst (fst (fst x))))
                             (snd (fst (fst x))) (snd (fst x)) (snd x))
      (combine (combine (combine (combine (padded_text b) (input_lengths b))
                                 (padded_mel b))
                        (output_lengths b))
               (filenames b)).

(** A sample whose mel the collator cannot place in a block of [num_mels]
    channels. *)
Definition misfit (num_mels : nat) (x : sample) : Prop :=
  size0 (s_mel x) <> num_mels /\ size0 (s_mel x) <> 1%nat.

(** [index] is no position of a list of length [len], from either end. *)
Definition out_of_bounds (len : nat) (index : Z) : Prop :=
  index < - Z.of_nat len \/ Z.of_nat len <= index.

Section CollateNotions.
Context {TS : TorchSort}.

Definition text_lengths (batch : list sample) : list Z :=
  map (fun x => Z.of_nat (length (s_text x))) batch.

(** The order [torch.sort] puts the batch in. *)
Definition sorted_ids (batch : list sample) : list nat :=
  snd (torch_sort (text_lengths batch)).

(** What the collator returns on a batch it accepts. *)
Definition collated (n : Z) (batch : list sample) : batch_out :=
  let ids := sorted_ids batch in
  let len := target_len n batch in
  mkBatch
    (map (fun i => pad_text_row (max_text batch) (s_text (pick batch i))) ids)
    (fst (torch_sort (text_lengths batch)))
    (map (fun i => pad_mel_block len (s_mel (pick batch i))) ids)
    (map (fun i => gate_row len (frame_count (pick batch i))) ids)
    (map (fun i => Z.of_nat (frame_count (pick batch i))) ids)
    (map (fun i => s_fname (pick batch i)) ids).

End CollateNotions.

Section LoaderNotions.
Context {E : Env}.

(** The manifest the selected fetcher reads (lines 33-40). *)
Definition manifest_of (hp : hparams) : result (list entry) :=
  let mode := opt_get (hp_fetcher_mode hp) "lj"%string in
  if String.eqb mode "lj" then load_filepaths_and_text (hp_path hp)
  else if String.eqb mode "mozilla_cv" then load_mozilla_cv (hp_path hp)
  else Raise NotImplementedError.

(** The entries in the order [random.shuffle] leaves them in after
    [random.seed(a)]. *)
Definition shuffled_with (a : Z) (entries : list entry) : list entry :=
  fst (shuffle_from (length entries - 1) entries (random_seed a)).

(** What lines 86-95 leave of [get_mel] once the test has passed. *)
Definition extracted (self : TextMelLoader) (audio : list Q)
    : result (option tensor2) :=
  match features self audio with
  | Ok melspec => Ok (Some melspec)
  | Raise e => Raise e
  end.

Definition printed (st : pystate) (ev : event) : pystate :=
  mkState (st_random st) (st_stdout st ++ [ev]).

(** The state after the diagnostic of line 114, printed when the features
    are not [None]. *)
Definition after_diagnostic (index : Z) (t : list Z) (m : option tensor2)
    (p : pystr) (st : pystate) : pystate :=
  match m with
  | Some m' => printed st (InvalidSample index (size1 m') (length t) p)
  | None => st
  end.

(** [it] is what [__getitem__] hands out for a sample of the dataset that
    passed the test of lines 110-112. *)
Definition valid_sample (self : TextMelLoader) (it : item) : Prop :=
  exists e st1 st2 t m p,
    In e (audiopaths_and_text self)
    /\ get_mel_text_pair self e st1 = (Ok (t, Some m, p), st2)
    /\ invalid self t (Some m) = false
    /\ deliver self t m p = Ok it.

(** Every entry of the dataset fails the test of lines 110-112, whatever
    the state it is read in. *)
Definition always_invalid (self : TextMelLoader) : Prop :=
  forall e st, In e (audiopaths_and_text self) ->
    exists t m p st1,
      get_mel_text_pair self e st = (Ok (t, m, p), st1)
      /\ invalid self t m = true.

End LoaderNotions.

(* ================================================================= *)
(** * Instances of the collaborators and concrete inputs *)

(** ** The insertion sort is a [torch.sort] *)

Lemma insert_desc_perm (x : Z * nat) (l : list (Z * nat)) :
  Permutation (insert_desc x l) (x :: l).
Proof.
  induction l as [|y l IH]; simpl; auto.
  destruct (fst y <=? fst x); auto.
  rewrite IH. apply perm_swap.
Qed.

Lemma isort_desc_perm (l : list (Z * nat)) : Permutation (isort_desc l) l.
Proof.
  induction l as [|x l IH]; simpl; auto.
  rewrite insert_desc_perm. auto.
Qed.

Definition key_ge (a b : Z * nat) : Prop := fst a >= fst b.

Lemma insert_desc_sorted (x : Z * nat) (l : list (Z * nat)) :
  StronglySorted key_ge l -> StronglySorted key_ge (insert_desc x l).
Proof.
  induction 1 as [|y l Hs IH Hall]; simpl.
  - repeat constructor.
  - destruct (fst y <=? fst x) eqn:Hc.
    + apply Z.leb_le in Hc. constructor.
      * constructor; assumption.
      * constructor; [unfold key_ge; lia|].
        eapply Forall_impl; [|exact Hall]. unfold key_ge; intros; lia.
    + apply Z.leb_gt in Hc. constructor; [assumption|].
      eapply Permutation_Forall; [symmetry; apply insert_desc_perm|].
      constructor; [unfold key_ge; lia | assumption].
Qed.

Lemma isort_desc_sorted (l : list (Z * nat)) :
  StronglySorted key_ge (isort_desc l).
Proof.
  induction l; simpl; [constructor | apply insert_desc_sorted; assumption].
Qed.

Lemma StronglySorted_map_fst (l : list (Z * nat)) :
  StronglySorted key_ge l -> StronglySorted Z.ge (map fst l).
Proof.
  induction 1 as [|y l Hs IH Hall]; simpl; constructor; auto.
  apply Forall_map. exact Hall.
Qed.

Lemma combine_seq_tagged (l : list Z) (d : list Z) :
  Forall (fun p => nth_error (d ++ l) (snd p) = Some (fst p))
         (combine l (seq (length d) (length l))).
Proof.
  revert d. induction l as [|x l IH]; intro d; simpl; constructor.
  - simpl. rewrite nth_error_app2 by lia. now rewrite Nat.sub_diag.
  - specialize (IH (d ++ [x])).
    rewrite <- app_assoc, length_app, Nat.add_1_r in IH. exact IH.
Qed.

Lemma map_snd_combine_seq (l : list Z) (k : nat) :
  map snd (combine l (seq k (length l))) = seq k (length l).
Proof.
  revert k. induction l; intro k; simpl; f_equal; auto.
Qed.

#[export] Program Instance stable_torch_sort : TorchSort :=
  {| torch_sort := stable_sort |}.
Next Obligation.
  unfold stable_sort; simpl.
  rewrite (Permutation_map snd (isort_desc_perm _)).
  now rewrite map_snd_combine_seq.
Qed.
Next Obligation.
  unfold stable_sort; simpl. rewrite map_map.
  apply map_ext_Forall.
  eapply Permutation_Forall; [symmetry; apply isort_desc_perm|].
  eapply Forall_impl; [|exact (combine_seq_tagged l [])].
  simpl. intros p Hp. symmetry. now apply nth_error_nth.
Qed.
Next Obligation.
  unfold stable_sort; simpl.
  apply StronglySorted_map_fst, isort_desc_sorted.
Qed.

(** ** The concrete world as an [Env] *)

Lemma script_randbelow_lt (g : list nat) (n : nat) :
  (0 < n)%nat -> (fst (script_randbelow g n) < n)%nat.
Proof.
  intro H. destruct g as [|d g]; simpl; [assumption|].
  apply Nat.mod_upper_bound. lia.
Qed.

Fixpoint drop_to_slash (s : pystr) : pystr :=
  match s with
  | [] => []
  | c :: s' => if (c =? 47)%N then s' else drop_to_slash s'
  end.

Definition toy_dirname (p : pystr) : pystr := rev (drop_to_slash (rev p)).

Definition toy_join (a b : pystr) : pystr :=
  match a with
  | [] => b
  | _ => a ++ str "/" ++ b
  end.

(** The tokenizer of the toy world uses each code point as its symbol id;
    its STFT constructor accepts every parameter set; seeding with [a]
    installs the draws [|a|, |a|+1, ...]. *)
Definition toy_env (d : disk) : Env :=
  {| open_utf8 := fun f => lookup f (d_lines d);
     load_filepaths_and_text := fun f => lookup f (d_pairs d);
     load_wav_to_torch := fun f => lookup f (d_audio d);
     audio_from_file := fun f => lookup f (d_audio d);
     np_load := fun f => lookup f (d_mels d);
     os_path_dirname := toy_dirname;
     os_path_join := toy_join;
     text_to_sequence := fun t _ => map Z.of_N t;
     interpolate_area := area_interpolate;
     mel_spectrogram := toy_mel_spectrogram;
     TacotronSTFT := fun s => Ok s;
     rng := list nat;
     random_seed := fun a => seq (Z.to_nat (Z.abs a)) 8;
     randbelow := script_randbelow;
     randbelow_lt := script_randbelow_lt |}.

(** A state of the toy world: the draws to come, nothing printed yet. *)
Definition fresh (d : disk) (g : list nat) : @pystate (toy_env d) :=
  @mkState (toy_env d) g [].

(** ** Concrete inputs *)

(** A mel of [chans] channels and [frames] frames, every value one half. *)
Definition flat_mel (chans frames : nat) : tensor2 :=
  mkTensor2 frames (repeat (repeat (1 # 2)%Q frames) chans).

(** Token lengths 5, 2, 8 and frame counts 40, 10, 55. *)
Definition batch_5_2_8 : list sample :=
  [ mkSample (repeat 7 5) (flat_mel 2 40) (str "a.wav");
    mkSample (repeat 7 2) (flat_mel 2 10) (str "b.wav");
    mkSample (repeat 7 8) (flat_mel 2 55) (str "c.wav") ].

(** Two tokens with three frames, one token with no frame at all. *)
Definition batch_with_empty_mel : list sample :=
  [ mkSample [5; 6] (flat_mel 1 3) (str "a.wav");
    mkSample [7] (flat_mel 1 0) (str "b.wav") ].


Definition tsv (cols : list string) : pystr :=
  concat (map (fun c => str c ++ [tab]) (removelast cols))
  ++ str (last cols ""%string) ++ [10%N].

(** A manifest of a header and two rows. *)
Definition manifest_lines : list pystr :=
  [ tsv ["client_id"; "path"; "sentence"; "up_votes"]%string;
    tsv ["f00"; "one.mp3"; "hello world"; "2"]%string;
    tsv ["f01"; "two.mp3"; "good bye"; "3"]%string ].

Definition manifest_disk : disk :=
  mkDisk [(str "cv/train.tsv", manifest_lines)] [] [] [].

(** A configuration of the toy world, by the options the checks read. *)
Definition config (manifest : pystr) (mode : option string)
    (from_disk : bool) (wavs : option bool) (rate : Z) (input_rate : option Z)
    (mel_cap text_cap : option Z) (collate_later : option bool) : hparams :=
  mkHparams manifest mode [] (32768 # 1) rate from_disk wavs input_rate
            1024 256 1024 2 0 (8000 # 1) 1234 mel_cap text_cap collate_later.

Definition audio_disk : disk :=
  mkDisk [] []
    [ (str "loud.flac", ([2; -2]%Q, 2));
      (str "soft.flac", ([1 # 2; -1 # 4]%Q, 2));
      (str "fast.flac", ([3; -3; 1 # 2; 0]%Q, 4)) ]
    [].

(** A loader by the attributes the methods read. *)
Definition loader (entries : list entry) (input_rate rate : Z)
    (from_disk wavs : bool) (mel_cap text_cap : option Z) (collate_later : bool)
    : TextMelLoader :=
  mkLoader [] entries [] (32768 # 1) rate from_disk wavs input_rate
           (mkStft 1024 256 1024 2 rate 0 (8000 # 1))
           mel_cap text_cap collate_later.

Definition dataset_disk : disk :=
  mkDisk [] []
    [ (str "long.flac", ([0; 0; 0]%Q, 2));
      (str "soft.flac", ([1 # 2; -1 # 4]%Q, 2)) ]
    [].

Definition two_entries : list entry :=
  [ (str "long.flac", str "hi"); (str "soft.flac", str "hi") ].

(** Raw waveforms, at most two frames: entry 0 is too long, entry 1 is
    fine. *)
Definition capped : TextMelLoader :=
  loader two_entries 2 2 false true (Some 2) None true.

(** The same with both caps and without later collation. *)
Definition fixed_size : TextMelLoader :=
  loader two_entries 2 2 false true (Some 4) (Some 3) false.

Definition long_mel : tensor2 := mkTensor2 3 [[0; 0; 0]%Q].
Definition soft_mel : tensor2 := mkTensor2 2 [[1 # 2; -1 # 4]%Q].

(** Mels of two channels and of three. *)
Definition batch_mixed_channels : list sample :=
  [ mkSample [5; 6] (flat_mel 2 3) (str "a.wav");
    mkSample [7] (flat_mel 3 2) (str "b.wav") ].

(** The loader built from [manifest_disk] in [mozilla_cv] mode with the
    seed 1234 and nothing else set. *)
Definition loader_of_manifest : TextMelLoader :=
  mkLoader (str "cv")
           [ (str "clips/two.mp3", str "good bye");
             (str "clips/one.mp3", str "hello world") ]
           [] (32768 # 1) 22050 false false 22050
           (mkStft 1024 256 1024 2 22050 0 (8000 # 1))
           None None true.

(** A dataset whose only entry is too long for the cap. *)
Definition all_long : TextMelLoader :=
  loader [ (str "long.flac", str "hi") ] 2 2 false true (Some 2) None true.

(** A disk with one precomputed mel of two channels, and a loader that reads
    mels from it. *)
Definition mel_disk : disk :=
  mkDisk [] [] [] [ (str "a.npy", flat_mel 2 3); (str "b.npy", flat_mel 5 3) ].

Definition from_disk : TextMelLoader :=
  loader [] 2 2 true false None None true.

(** A disk with a file that decodes to no samples. *)
Definition silent_disk : disk :=
  mkDisk [] [] [ (str "none.flac", ([], 2)) ] [].

(** A manifest whose only data row begins with a tab: its first column is
    empty. *)
Definition leading_tab_row : list pystr :=
  [ []; str "one.mp3"; str "hello"; str "2" ].

Definition leading_tab_disk : disk :=
  mkDisk [ (str "m.tsv",
            [ tsv ["client_id"; "path"; "sentence"; "up_votes"]%string;
              join tab leading_tab_row ++ [10%N] ]) ]
         [] [] [].

(* ================================================================= *)
(** * Properties *)

(** ** Lists and loops *)

Lemma rmap_ok {A B} (f : A -> result B) (g : A -> B) (l : list A) :
  Forall (fun x => f x = Ok (g x)) l -> rmap f l = Ok (map g l).
Proof.
  induction 1 as [|x l Hx Hl IH]; simpl; [reflexivity|].
  rewrite Hx; simpl. rewrite IH; reflexivity.
Qed.

Lemma map_nth_seq {A} (l : list A) (d : A) :
  map (fun i => nth i l d) (seq 0 (length l)) = l.
Proof.
  induction l as [|a l IH]; simpl; [reflexivity|].
  f_equal. rewrite <- seq_shift, map_map. exact IH.
Qed.

Lemma gather_perm {A} (l : list A) (d : A) (ids : list nat) :
  Permutation ids (seq 0 (length l)) ->
  Permutation (map (fun i => nth i l d) ids) l.
Proof.
  intro H. rewrite (Permutation_map _ H). now rewrite map_nth_seq.
Qed.

Lemma perm_seq_lt (ids : list nat) (n : nat) :
  Permutation ids (seq 0 n) -> Forall (fun i => (i < n)%nat) ids.
Proof.
  intro H. apply Forall_forall. intros i Hi.
  apply (Permutation_in _ H) in Hi. apply in_seq in Hi. lia.
Qed.

Lemma skipn_repeat {A} (a : A) (k n : nat) :
  skipn k (repeat a n) = repeat a (n - k).
Proof.
  revert k. induction n; intros [|k]; simpl; auto.
Qed.

Lemma fold_max_ge (l : list nat) (x : nat) :
  In x l -> (x <= fold_right Nat.max 0 l)%nat.
Proof.
  induction l as [|a l IH]; simpl; [tauto|].
  intros [->|H]; [lia | specialize (IH H); lia].
Qed.

Lemma fold_max_in (l : list nat) :
  l <> [] -> In (fold_right Nat.max 0%nat l) l.
Proof.
  induction l as [|a l IH]; [congruence|]. intros _. simpl.
  destruct l as [|b l].
  - simpl. left. lia.
  - destruct (Nat.max_spec a (fold_right Nat.max 0%nat (b :: l)))
      as [[_ ->]|[_ ->]].
    + right. apply IH. discriminate.
    + now left.
Qed.

(** ** The collator in closed form *)

Lemma round_target_len_pos (n m : Z) :
  0 < n -> 0 <= m ->
  exists len, round_target_len n m = Ok len
    /\ len = (if m mod n =? 0 then m else m + (n - m mod n))
    /\ len mod n = 0 /\ m <= len < m + n.
Proof.
  intros Hn Hm. unfold round_target_len.
  destruct (n =? 0) eqn:Hn0; [apply Z.eqb_eq in Hn0; lia|].
  pose proof (Z.mod_pos_bound m n Hn) as Hb.
  destruct (m mod n =? 0) eqn:Hmod; simpl.
  - apply Z.eqb_eq in Hmod. exists m. repeat split; auto; lia.
  - apply Z.eqb_neq in Hmod.
    assert (Hz : (m + (n - m mod n)) mod n = 0).
    { rewrite (Z.div_mod m n) at 1 by lia.
      replace (n * (m / n) + m mod n + (n - m mod n)) with ((m / n + 1) * n)
        by ring.
      apply Z.mod_mul. lia. }
    rewrite Hz. simpl. eexists; repeat split; auto; lia.
Qed.

Lemma assign_prefix_zeros (len : nat) (t : list Z) :
  (length t <= len)%nat ->
  assign_prefix (repeat 0 len) t = Ok (pad_text_row len t).
Proof.
  intro H. unfold assign_prefix, pad_text_row.
  rewrite repeat_length, Nat.min_l by assumption.
  rewrite Nat.eqb_refl, skipn_repeat. reflexivity.
Qed.

Lemma assign_mel_fits (num_mels len : nat) (m : tensor2) :
  (size1 m <= len)%nat -> size0 m = num_mels ->
  assign_mel num_mels len m = Ok (pad_mel_block len m).
Proof.
  intros H H0. unfold assign_mel, pad_mel_block.
  rewrite Nat.min_l by assumption.
  rewrite Nat.eqb_refl. simpl.
  apply Nat.eqb_eq in H0. rewrite H0. reflexivity.
Qed.

Section CollateFacts.
Context {TS : TorchSort}.

Lemma sorted_ids_perm (batch : list sample) :
  Permutation (sorted_ids batch) (seq 0 (length batch)).
Proof.
  unfold sorted_ids.
  pose proof (torch_sort_perm (text_lengths batch)) as H.
  unfold text_lengths in H at 2. now rewrite length_map in H.
Qed.

Lemma sorted_lengths (batch : list sample) :
  fst (torch_sort (text_lengths batch))
  = map (fun i => Z.of_nat (text_len (pick batch i))) (sorted_ids batch).
Proof.
  rewrite torch_sort_gather. apply map_ext_Forall.
  eapply Forall_impl; [|exact (perm_seq_lt _ _ (sorted_ids_perm batch))].
  intros i Hi. unfold text_lengths, pick, text_len.
  rewrite (nth_indep _ 0 (Z.of_nat (length (s_text no_sample))))
    by (now rewrite length_map).
  now rewrite (map_nth (fun x => Z.of_nat (length (s_text x)))).
Qed.

Lemma sorted_lengths_perm (batch : list sample) :
  Permutation (fst (torch_sort (text_lengths batch))) (text_lengths batch).
Proof.
  rewrite sorted_lengths.
  change (fun i => Z.of_nat (text_len (pick batch i)))
    with (fun i => (fun x => Z.of_nat (length (s_text x))) (pick batch i)).
  rewrite <- (map_map (pick batch) (fun x => Z.of_nat (length (s_text x)))).
  apply Permutation_map. apply gather_perm, sorted_ids_perm.
Qed.

(** The first sorted length is the longest token sequence. *)
Lemma sorted_head_max (batch : list sample) :
  batch <> [] ->
  exists rest, fst (torch_sort (text_lengths batch))
               = Z.of_nat (max_text batch) :: rest.
Proof.
  intro Hne.
  pose proof (sorted_lengths_perm batch) as Hp.
  pose proof (torch_sort_desc (text_lengths batch)) as Hs.
  destruct (fst (torch_sort (text_lengths batch))) as [|h rest] eqn:Hl.
  - apply Permutation_nil in Hp. destruct batch; [congruence|discriminate].
  - exists rest. f_equal.
    assert (Hin : In h (text_lengths batch))
      by (apply (Permutation_in _ Hp); now left).
    apply in_map_iff in Hin. destruct Hin as [x [Hx Hin]].
    assert (Hle : (text_len x <= max_text batch)%nat)
      by (apply fold_max_ge, in_map, Hin).
    assert (Hmax : In (max_text batch) (map text_len batch)).
    { apply fold_max_in. destruct batch; [congruence|discriminate]. }
    apply in_map_iff in Hmax. destruct Hmax as [y [Hy Hyin]].
    assert (Hin' : In (Z.of_nat (length (s_text y))) (h :: rest)).
    { apply (Permutation_in _ (Permutation_sym Hp)).
      unfold text_lengths. apply in_map_iff. eauto. }
    inversion Hs as [|? ? _ Hall]; subst.
    unfold text_len in *.
    destruct Hin' as [Heq|Hin'].
    + lia.
    + rewrite Forall_forall in Hall. specialize (Hall _ Hin'). lia.
Qed.
End CollateFacts.

Section CollateClosedForm.
Context {TS : TorchSort}.

Lemma nth_error_pick (batch : list sample) (i : nat) :
  (i < length batch)%nat -> nth_error batch i = Some (pick batch i).
Proof. intro H. unfold pick. now apply nth_error_nth'. Qed.

Lemma pick_in (batch : list sample) (i : nat) :
  (i < length batch)%nat -> In (pick batch i) batch.
Proof. intro H. unfold pick. now apply nth_In. Qed.

Lemma target_len_bounds (n : Z) (batch : list sample) :
  0 < n ->
  round_target_len n (Z.of_nat (max_frames batch))
    = Ok (Z.of_nat (target_len n batch))
  /\ Z.of_nat (target_len n batch) mod n = 0
  /\ (max_frames batch <= target_len n batch)%nat
  /\ Z.of_nat (target_len n batch) < Z.of_nat (max_frames batch) + n.
Proof.
  intro Hn.
  destruct (round_target_len_pos n (Z.of_nat (max_frames batch)) Hn
              (Nat2Z.is_nonneg _)) as [len [Hr [Hlen [Hmod Hb]]]].
  assert (Ht : Z.of_nat (target_len n batch) = len).
  { unfold target_len. rewrite <- Hlen. apply Z2Nat.id. lia. }
  rewrite Ht. repeat split; auto; lia.
Qed.

Lemma collate_closed_form (n : Z) (batch : list sample) :
  batch <> [] -> 0 < n -> same_channels batch ->
  collate n batch = Ok (collated n batch).
Proof.
  intros Hne Hn Hch. unfold collate, collated.
  pose proof (sorted_ids_perm batch) as Hperm.
  pose proof (perm_seq_lt _ _ Hperm) as Hlt.
  destruct (sorted_head_max batch Hne) as [rest Hhead].
  unfold sorted_ids in *.
  destruct (torch_sort (text_lengths batch)) as [lens ids] eqn:Hsort.
  simpl in *. subst lens.
  fold (text_lengths batch). rewrite Hsort. rewrite Nat2Z.id.
  unfold collate_text.
  rewrite (rmap_ok _ (fun i => (pad_text_row (max_text batch)
                                  (s_text (pick batch i)),
                                s_fname (pick batch i)))).
  2:{ eapply Forall_impl; [|exact Hlt]. intros i Hi. simpl in Hi.
      rewrite (nth_error_pick batch i Hi).
      rewrite assign_prefix_zeros; [reflexivity|].
      apply fold_max_ge.
      apply (in_map text_len), pick_in, Hi. }
  simpl. destruct batch as [|b0 batch']; [congruence|].
  destruct (target_len_bounds n (b0 :: batch') Hn) as [Hr [_ [Hge _]]].
  rewrite Hr. simpl rbind.
  destruct (Z.of_nat (target_len n (b0 :: batch')) <? 0) eqn:Hneg;
    [apply Z.ltb_lt in Hneg; lia|].
  rewrite Nat2Z.id. unfold collate_mel.
  rewrite (rmap_ok _ (fun i =>
             (pad_mel_block (target_len n (b0 :: batch'))
                (s_mel (pick (b0 :: batch') i)),
              gate_row (target_len n (b0 :: batch'))
                (frame_count (pick (b0 :: batch') i)),
              Z.of_nat (frame_count (pick (b0 :: batch') i))))).
  2:{ eapply Forall_impl; [|exact Hlt]. intros i Hi. simpl in Hi.
      rewrite (nth_error_pick (b0 :: batch') i Hi).
      pose proof (pick_in (b0 :: batch') i Hi) as Hin.
      rewrite assign_mel_fits; [reflexivity| |].
      - etransitivity; [|exact Hge]. unfold max_frames.
        apply fold_max_ge.
        apply (in_map (fun x => size1 (s_mel x))), Hin.
      - unfold same_channels in Hch. rewrite Forall_forall in Hch.
        apply (Hch _ Hin). }
  simpl rbind. rewrite !map_map. simpl. reflexivity.
Qed.
End CollateClosedForm.

(** ** The gate row *)

Lemma zeros_length (n : nat) : length (zeros n) = n.
Proof. apply repeat_length. Qed.

Lemma firstn_zeros (k n : nat) : firstn k (zeros n) = zeros (Nat.min k n).
Proof.
  unfold zeros. revert k. induction n; intros [|k]; simpl; auto.
  now rewrite IHn.
Qed.

Lemma nth_repeat_lt {A} (a d : A) (n j : nat) :
  (j < n)%nat -> nth j (repeat a n) d = a.
Proof.
  revert j. induction n; intros j H; [lia|].
  destruct j; simpl; [reflexivity | apply IHn; lia].
Qed.


(** With at least one frame the row is zeros up to the last real frame and
    ones from there on. *)
Lemma gate_row_frames (len frames : nat) :
  (1 <= frames)%nat ->
  gate_row len frames
  = zeros (Nat.min (frames - 1) len)
    ++ repeat 1%Q (len - Nat.min (frames - 1) len).
Proof.
  intro H. unfold gate_row, fill_from, slice_start. rewrite zeros_length.
  destruct (Z.of_nat frames - 1 <? 0) eqn:Hneg;
    [apply Z.ltb_lt in Hneg; lia|].
  replace (Z.to_nat (Z.of_nat frames - 1)) with (frames - 1)%nat by lia.
  rewrite firstn_zeros. f_equal. f_equal. lia.
Qed.


Lemma gate_row_one (len frames j : nat) :
  (1 <= frames)%nat -> (frames - 1 <= j < len)%nat ->
  nth j (gate_row len frames) 0%Q = 1%Q.
Proof.
  intros Hf Hj. rewrite gate_row_frames by assumption.
  rewrite app_nth2; rewrite zeros_length; [|lia].
  apply nth_repeat_lt. lia.
Qed.

Lemma gate_row_zero (len frames j : nat) :
  (1 <= frames)%nat -> (j < frames - 1)%nat -> (j < len)%nat ->
  nth j (gate_row len frames) 0%Q = 0%Q.
Proof.
  intros Hf Hj Hl. rewrite gate_row_frames by assumption.
  rewrite app_nth1 by (rewrite zeros_length; lia).
  apply nth_repeat_lt. lia.
Qed.

(** ** The padded mel block *)


Lemma pad_mel_block_copy (len : nat) (m : tensor2) (c j : nat) :
  wf_tensor2 m -> (j < size1 m)%nat ->
  nth j (nth c (rows (pad_mel_block len m)) []) 0%Q
  = nth j (nth c (rows m) []) 0%Q.
Proof.
  intros Hwf Hj. simpl.
  destruct (Nat.lt_ge_cases c (length (rows m))) as [Hc|Hc].
  - rewrite (nth_indep _ [] ((fun r => firstn (size1 m) r
                                      ++ zeros (len - size1 m)) []))
      by (now rewrite length_map).
    rewrite (map_nth (fun r => firstn (size1 m) r ++ zeros (len - size1 m))).
    unfold wf_tensor2 in Hwf. rewrite Forall_forall in Hwf.
    assert (Hl : length (nth c (rows m) []) = size1 m)
      by (apply Hwf, nth_In, Hc).
    rewrite firstn_all2 by lia. apply app_nth1. lia.
  - rewrite (nth_overflow (map _ _)) by (now rewrite length_map).
    rewrite (nth_overflow (rows m)) by assumption. reflexivity.
Qed.


Lemma Forall2_map_same {A B C} (R : B -> C -> Prop) (f : A -> B) (g : A -> C)
    (l : list A) :
  Forall (fun x => R (f x) (g x)) l -> Forall2 R (map f l) (map g l).
Proof. induction 1; simpl; constructor; auto. Qed.

(** ** The collator: gate, padding and order *)

(** A sample without mel frames: [output_lengths[i]-1] is [-1], and the
    slice [gate_padded[i, -1:]] sets the last position of the row. *)
Example collate_gate_without_frames :
  exists b,
    collate (TS := stable_torch_sort) 1 batch_with_empty_mel = Ok b
    /\ output_lengths b = [3; 0]
    /\ padded_gate b = [[0; 0; 1]; [0; 0; 1]]%Q.
Proof. eexists. split; [vm_compute; reflexivity|]. split; reflexivity. Qed.


Section CollateClaims.
Context {TS : TorchSort}.


(** C3: for a non-empty batch the collator returns; [input_lengths] is
    sorted in descending order and starts with the longest token sequence;
    one permutation [ids] of the batch positions orders [input_lengths],
    [padded_text], [padded_mel], [padded_gate], [output_lengths] and
    [filenames]; each token sequence is left-aligned and followed by zeros
    up to the longest one. *)
Theorem collate_sorted_by_text_length (n : Z) (batch : list sample) :
  batch <> [] -> 0 < n -> same_channels batch ->
  exists b ids,
    collate n batch = Ok b
    /\ Permutation ids (seq 0 (length batch))
    /\ StronglySorted Z.ge (input_lengths b)
    /\ hd_error (input_lengths b) = Some (Z.of_nat (max_text batch))
    /\ input_lengths b
       = map (fun i => Z.of_nat (text_len (pick batch i))) ids
    /\ padded_text b
       = map (fun i => s_text (pick batch i)
                       ++ repeat 0 (max_text batch - text_len (pick batch i)))
             ids
    /\ Forall (fun row => length row = max_text batch) (padded_text b)
    /\ filenames b = map (fun i => s_fname (pick batch i)) ids
    /\ output_lengths b
       = map (fun i => Z.of_nat (frame_count (pick batch i))) ids
    /\ padded_mel b
       = map (fun i => pad_mel_block (target_len n batch)
                         (s_mel (pick batch i))) ids
    /\ padded_gate b
       = map (fun i => gate_row (target_len n batch)
                         (frame_count (pick batch i))) ids.
Proof.
  intros Hne Hn Hch.
  exists (collated n batch), (sorted_ids batch).
  split; [now apply collate_closed_form|].
  split; [apply sorted_ids_perm|].
  split; [apply torch_sort_desc|].
  split.
  { simpl. destruct (sorted_head_max batch Hne) as [rest ->]. reflexivity. }
  split; [apply sorted_lengths|].
  split; [reflexivity|].
  split; [|repeat split].
  simpl. apply Forall_map.
  eapply Forall_impl;
    [|exact (perm_seq_lt _ _ (sorted_ids_perm batch))].
  intros i Hi. simpl in Hi. unfold pad_text_row.
  rewrite length_app, repeat_length.
  assert (text_len (pick batch i) <= max_text batch)%nat
    by (apply fold_max_ge, (in_map text_len), pick_in, Hi).
  unfold text_len in *. lia.
Qed.
End CollateClaims.


Lemma collate_sorted_by_text_length_witness :
  exists b ids,
    collate (TS := stable_torch_sort) 4 batch_5_2_8 = Ok b
    /\ Permutation ids (seq 0 (length batch_5_2_8))
    /\ StronglySorted Z.ge (input_lengths b)
    /\ hd_error (input_lengths b) = Some (Z.of_nat (max_text batch_5_2_8))
    /\ input_lengths b
       = map (fun i => Z.of_nat (text_len (pick batch_5_2_8 i))) ids
    /\ padded_text b
       = map (fun i => s_text (pick batch_5_2_8 i)
                       ++ repeat 0 (max_text batch_5_2_8
                                    - text_len (pick batch_5_2_8 i)))
             ids
    /\ Forall (fun row => length row = max_text batch_5_2_8) (padded_text b)
    /\ filenames b = map (fun i => s_fname (pick batch_5_2_8 i)) ids
    /\ output_lengths b
       = map (fun i => Z.of_nat (frame_count (pick batch_5_2_8 i))) ids
    /\ padded_mel b
       = map (fun i => pad_mel_block (target_len 4 batch_5_2_8)
                         (s_mel (pick batch_5_2_8 i))) ids
    /\ padded_gate b
       = map (fun i => gate_row (target_len 4 batch_5_2_8)
                         (frame_count (pick batch_5_2_8 i))) ids.
Proof.
  apply (collate_sorted_by_text_length (TS := stable_torch_sort) 4 batch_5_2_8).
  - discriminate.
  - lia.
  - repeat constructor.
Defined.

(** The scenario of the specification: lengths [8; 5; 2] and 56 frames. *)
Example collate_5_2_8 :
  exists b,
    collate (TS := stable_torch_sort) 4 batch_5_2_8 = Ok b
    /\ input_lengths b = [8; 5; 2]
    /\ output_lengths b = [55; 40; 10]
    /\ map (@length Q) (padded_gate b) = [56; 56; 56]%nat
    /\ map (fun g => skipn 53 g) (padded_gate b)
       = [[0; 1; 1]; [1; 1; 1]; [1; 1; 1]]%Q.
Proof. eexists. split; [vm_compute; reflexivity|]. repeat split. Qed.

(** ** The manifest loader *)

Lemma py_index_nth {A} (l : list A) (i : nat) (d : A) :
  (i < length l)%nat -> py_index l (Z.of_nat i) = Ok (nth i l d).
Proof.
  intro H. unfold py_index.
  destruct (Z.of_nat i <? 0) eqn:Hneg; [apply Z.ltb_lt in Hneg; lia|].
  replace ((Z.of_nat i <? 0) || (Z.of_nat (length l) <=? Z.of_nat i))
    with false by (symmetry; apply orb_false_iff; split; lia).
  rewrite Nat2Z.id. now rewrite (nth_error_nth' l d H).
Qed.

Lemma py_index_in {A} (l : list A) (i : Z) (x : A) :
  py_index l i = Ok x -> In x l.
Proof.
  unfold py_index.
  destruct ((_ <? 0) || (_ <=? _)); [discriminate|].
  destruct (nth_error l _) eqn:H; [|discriminate].
  intros [= <-]. eapply nth_error_In; eauto.
Qed.

Lemma py_index_short {A} (l : list A) (i : nat) :
  (length l <= i)%nat -> py_index l (Z.of_nat i) = Raise IndexError.
Proof.
  intro H. unfold py_index.
  destruct (Z.of_nat i <? 0) eqn:Hneg; [apply Z.ltb_lt in Hneg; lia|].
  replace ((Z.of_nat i <? 0) || (Z.of_nat (length l) <=? Z.of_nat i))
    with true by (symmetry; apply orb_true_iff; right; lia).
  reflexivity.
Qed.

Lemma mozilla_cv_entry_ok (row : list pystr) :
  (3 <= length row)%nat ->
  mozilla_cv_entry row = Ok (str "clips/" ++ nth 1 row [], nth 2 row []).
Proof.
  intro H. unfold mozilla_cv_entry.
  change (py_index row 1) with (py_index row (Z.of_nat 1)).
  change (py_index row 2) with (py_index row (Z.of_nat 2)).
  rewrite (py_index_nth row 1 []) by lia.
  rewrite (py_index_nth row 2 []) by lia. reflexivity.
Qed.

(** A row with fewer than three columns stops the loader. *)
Lemma mozilla_cv_entry_short (row : list pystr) :
  (length row < 3)%nat -> mozilla_cv_entry row = Raise IndexError.
Proof.
  intro H. unfold mozilla_cv_entry.
  change (py_index row 1) with (py_index row (Z.of_nat 1)).
  change (py_index row 2) with (py_index row (Z.of_nat 2)).
  destruct (Nat.lt_ge_cases 1 (length row)) as [H1|H1].
  - rewrite (py_index_nth row 1 []) by lia.
    rewrite (py_index_short row 2) by lia. reflexivity.
  - rewrite (py_index_short row 1) by lia. reflexivity.
Qed.

Lemma lstrip_keep (s : pystr) :
  is_space (hd 0%N s) = false -> lstrip s = s.
Proof. destruct s as [|c s]; simpl; [reflexivity|]. now intros ->. Qed.

(** On a line that ends with a newline and whose content neither begins nor
    ends with white space, [strip] removes the newline and nothing else. *)
Lemma strip_line (body : pystr) :
  body <> [] ->
  is_space (hd 0%N body) = false -> is_space (last body 0%N) = false ->
  strip (body ++ [10%N]) = body.
Proof.
  intros Hne Hh Hl. unfold strip.
  rewrite (lstrip_keep (body ++ [10%N]))
    by (destruct body; [congruence | exact Hh]).
  rewrite rev_app_distr. simpl.
  rewrite (lstrip_keep (rev body)); [apply rev_involutive|].
  destruct (exists_last Hne) as [b [e ->]].
  rewrite last_last in Hl. rewrite rev_app_distr. exact Hl.
Qed.

Section Manifest.
Context {E : Env}.

(** [load_mozilla_cv] in terms of [columns]: it drops the first row, and for
    every other row, in the order of the file, yields the entry whose path is
    [clips/] followed by the second of the line's [columns] and whose
    transcript is the third. *)
Lemma load_mozilla_cv_rows (filename : pystr) (lines : list pystr) :
  open_utf8 filename = Ok lines ->
  Forall (fun line => (3 <= length (columns line))%nat) (tl lines) ->
  load_mozilla_cv filename
  = Ok (map (fun line => (str "clips/" ++ nth 1 (columns line) [],
                          nth 2 (columns line) []))
            (tl lines)).
Proof.
  intros Hopen Hrows. unfold load_mozilla_cv. rewrite Hopen. simpl.
  unfold mozilla_cv_entries.
  replace (tl (map columns lines)) with (map columns (tl lines))
    by (destruct lines; reflexivity).
  rewrite (rmap_ok _ (fun row => (str "clips/" ++ nth 1 row [],
                                  nth 2 row []))).
  - now rewrite map_map.
  - apply Forall_map. eapply Forall_impl; [|exact Hrows].
    intros line Hl. simpl in Hl. now apply mozilla_cv_entry_ok.
Qed.
End Manifest.

Lemma load_mozilla_cv_rows_witness :
  load_mozilla_cv (E := toy_env manifest_disk) (str "cv/train.tsv")
  = Ok (map (fun line => (str "clips/" ++ nth 1 (columns line) [],
                          nth 2 (columns line) []))
            (tl manifest_lines)).
Proof.
  apply (load_mozilla_cv_rows (E := toy_env manifest_disk)
           (str "cv/train.tsv") manifest_lines).
  - reflexivity.
  - repeat (apply Forall_cons; [vm_compute; lia|]). apply Forall_nil.
Defined.

Example load_mozilla_cv_two_rows :
  load_mozilla_cv (E := toy_env manifest_disk) (str "cv/train.tsv")
  = Ok [ (str "clips/one.mp3", str "hello world");
         (str "clips/two.mp3", str "good bye") ].
Proof. reflexivity. Qed.

(** ** Construction *)

Section Construction.
Context {E : Env}.

Lemma init_cases (hp : hparams) (st : pystate) :
  init hp st
  = match manifest_of hp with
    | Raise e => (Raise e, st)
    | Ok entries =>
        if hp_load_mel_from_disk hp && opt_get (hp_return_wavs hp) false
        then (Raise AssertionError, st)
        else
          match TacotronSTFT (stft_params hp) with
          | Raise e => (Raise e, st)
          | Ok the_stft =>
              let st' :=
                mkState (snd (shuffle_from (length entries - 1) entries
                                (random_seed (hp_seed hp))))
                        (st_stdout st) in
              if inconsistent hp then (Raise AssertionError, st')
              else
                (Ok (mkLoader (os_path_dirname (hp_path hp))
                       (shuffled_with (hp_seed hp) entries)
                       (hp_text_cleaners hp) (hp_max_wav_value hp)
                       (hp_sampling_rate hp) (hp_load_mel_from_disk hp)
                       (opt_get (hp_return_wavs hp) false)
                       (opt_get (hp_input_sample_rate hp)
                          (hp_sampling_rate hp))
                       the_stft
                       (hp_max_mel_length hp) (hp_max_text_length hp)
                       (opt_get (hp_needs_collate hp) true)),
                 st')
          end
    end.
Proof.
  unfold init, manifest_of, inconsistent, shuffled_with, stft_params.
  unfold bind, lift, ret, raise, assert, seed, shuffle.
  destruct (String.eqb (opt_get (hp_fetcher_mode hp) "lj"%string) "lj").
  - destruct (load_filepaths_and_text (hp_path hp)) as [entries|e];
      [|reflexivity].
    destruct (hp_load_mel_from_disk hp && opt_get (hp_return_wavs hp) false);
      simpl; [reflexivity|].
    destruct (TacotronSTFT _) as [the_stft|e]; [|reflexivity].
    destruct (shuffle_from _ entries _) as [x g]. simpl.
    destruct (opt_get (hp_needs_collate hp) true); simpl; [reflexivity|].
    destruct (hp_max_mel_length hp), (hp_max_text_length hp); reflexivity.
  - destruct (String.eqb (opt_get (hp_fetcher_mode hp) "lj"%string)
                "mozilla_cv");
      [|reflexivity].
    destruct (load_mozilla_cv (hp_path hp)) as [entries|e]; [|reflexivity].
    destruct (hp_load_mel_from_disk hp && opt_get (hp_return_wavs hp) false);
      simpl; [reflexivity|].
    destruct (TacotronSTFT _) as [the_stft|e]; [|reflexivity].
    destruct (shuffle_from _ entries _) as [x g]. simpl.
    destruct (opt_get (hp_needs_collate hp) true); simpl; [reflexivity|].
    destruct (hp_max_mel_length hp), (hp_max_text_length hp); reflexivity.
Qed.

(** C8: what [__init__] builds, its entry list and the order of that list
    included, does not depend on the state the interpreter is in when it is
    called, so constructing again yields the same list; the order is the
    shuffle of the manifest's entries by the generator seeded with
    [hparams.seed]. *)
Theorem init_reproducible (hp : hparams) (st1 st2 : pystate) :
  fst (init hp st1) = fst (init hp st2)
  /\ fst (init hp (snd (init hp st1))) = fst (init hp st1)
  /\ match fst (init hp st1) with
     | Ok self =>
         exists entries,
           manifest_of hp = Ok entries
           /\ audiopaths_and_text self = shuffled_with (hp_seed hp) entries
     | Raise _ => True
     end.
Proof.
  assert (H : forall a b, fst (init hp a) = fst (init hp b)).
  { intros a b. rewrite !init_cases.
    destruct (manifest_of hp); [|reflexivity].
    destruct (_ && _); [reflexivity|].
    destruct (TacotronSTFT _); [|reflexivity]. simpl.
    destruct (inconsistent hp); reflexivity. }
  split; [apply H|]. split; [apply H|].
  rewrite init_cases.
  destruct (manifest_of hp) as [entries|e]; [|exact I].
  destruct (_ && _); [exact I|].
  destruct (TacotronSTFT _); [|exact I]. simpl.
  destruct (inconsistent hp); [exact I|]. simpl.
  exists entries. split; reflexivity.
Qed.

End Construction.

Section ConstructionChecks.
Context {E : Env}.

(** C6, amended: once the fetcher mode is recognised and the manifest is
    read, construction fails with an assertion error whenever
    [load_mel_from_disk] and [return_wavs] are both set; once the STFT is
    built as well, it fails with an assertion error exactly when
    [needs_collate] is false and a length cap is unset, or
    [load_mel_from_disk] and [return_wavs] are both set, and in every other
    such configuration it does not raise on these checks: it returns the
    loader. *)
Theorem init_assertion (hp : hparams) (st : pystate)
    (entries : list entry) :
  manifest_of hp = Ok entries ->
  (hp_load_mel_from_disk hp && opt_get (hp_return_wavs hp) false = true ->
   fst (init hp st) = Raise AssertionError)
  /\ (forall the_stft,
        TacotronSTFT (stft_params hp) = Ok the_stft ->
        (fst (init hp st) = Raise AssertionError <-> inconsistent hp = true)
        /\ (inconsistent hp = false ->
            exists self, fst (init hp st) = Ok self)).
Proof.
  intro Hm. rewrite init_cases, Hm. split.
  - intros ->. reflexivity.
  - intros the_stft Hs. rewrite Hs.
    destruct (hp_load_mel_from_disk hp && opt_get (hp_return_wavs hp) false)
      eqn:Hw.
    + assert (Hi : inconsistent hp = true)
        by (unfold inconsistent; rewrite Hw; apply orb_true_r).
      rewrite Hi. simpl. repeat split; auto; discriminate.
    + simpl. destruct (inconsistent hp); simpl.
      * repeat split; auto; discriminate.
      * split; [split; discriminate|]. intros _. eexists. reflexivity.
Qed.
End ConstructionChecks.

(** C6 as stated fails: an unrecognised fetcher mode is reported before the
    flags are looked at, so this inconsistent configuration
    ([load_mel_from_disk] and [return_wavs] both set) fails with
    [NotImplementedError], not with an assertion error. *)
Lemma init_unknown_mode_first :
  let hp := config (str "cv/train.tsv") (Some "unknown"%string)
                   true (Some true) 22050 None None None None in
  inconsistent hp = true
  /\ fst (init (E := toy_env manifest_disk) hp (fresh manifest_disk []))
     = Raise NotImplementedError
  /\ fst (init (E := toy_env manifest_disk) hp (fresh manifest_disk []))
     <> Raise AssertionError.
Proof.
  split; [reflexivity|]. split; [reflexivity|]. vm_compute. discriminate.
Qed.

Lemma init_assertion_witness :
  let hp := config (str "cv/train.tsv") (Some "mozilla_cv"%string)
                   false None 22050 None (Some 800) None (Some false) in
  (hp_load_mel_from_disk hp && opt_get (hp_return_wavs hp) false = true ->
   fst (init (E := toy_env manifest_disk) hp (fresh manifest_disk []))
   = Raise AssertionError)
  /\ (forall the_stft,
        TacotronSTFT (Env := toy_env manifest_disk) (stft_params hp)
        = Ok the_stft ->
        (fst (init (E := toy_env manifest_disk) hp (fresh manifest_disk []))
         = Raise AssertionError <-> inconsistent hp = true)
        /\ (inconsistent hp = false ->
            exists self,
              fst (init (E := toy_env manifest_disk) hp
                     (fresh manifest_disk []))
              = Ok self)).
Proof.
  apply (init_assertion (E := toy_env manifest_disk)
           (config (str "cv/train.tsv") (Some "mozilla_cv"%string)
                   false None 22050 None (Some 800) None (Some false))
           (fresh manifest_disk [])
           [ (str "clips/one.mp3", str "hello world");
             (str "clips/two.mp3", str "good bye") ]).
  reflexivity.
Defined.

(** The same manifest and seed, constructed on two different generator
    states: the same order. *)
Example init_twice :
  let hp := config (str "cv/train.tsv") (Some "mozilla_cv"%string)
                   false None 22050 None None None None in
  exists self,
    fst (init (E := toy_env manifest_disk) hp (fresh manifest_disk []))
    = Ok self
    /\ fst (init (E := toy_env manifest_disk) hp
              (fresh manifest_disk [5; 3; 1]%nat))
       = Ok self
    /\ audiopaths_and_text self
       = [ (str "clips/two.mp3", str "good bye");
           (str "clips/one.mp3", str "hello world") ].
Proof. eexists. split; [vm_compute; reflexivity|]. split; reflexivity. Qed.

(** ** The range of a waveform *)

Lemma Qltb_lt (x y : Q) : Qltb x y = true <-> (x < y)%Q.
Proof.
  unfold Qltb. rewrite negb_true_iff. split.
  - intro H. apply Qnot_le_lt. intro Hle.
    apply Qle_bool_iff in Hle. congruence.
  - intro H. destruct (Qle_bool y x) eqn:Hb; [|reflexivity].
    apply Qle_bool_iff in Hb. exfalso. exact (Qlt_not_le _ _ H Hb).
Qed.

Lemma Qltb_ge (x y : Q) : Qltb x y = false <-> (y <= x)%Q.
Proof.
  unfold Qltb. rewrite negb_false_iff. apply Qle_bool_iff.
Qed.

Lemma clip_range (x : Q) : (-1 <= clip x (-1) 1 <= 1)%Q.
Proof.
  unfold clip.
  destruct (Qltb x (-1)) eqn:Hlo; [lra|].
  destruct (Qltb 1 x) eqn:Hhi; [lra|].
  apply Qltb_ge in Hlo, Hhi. lra.
Qed.

Lemma remap_range (x : Q) : (0 <= remap x <= 1)%Q.
Proof.
  unfold remap. pose proof (clip_range x) as H.
  set (c := clip x (-1) 1) in *.
  unfold Qdiv. change (/ 2)%Q with (1 # 2)%Q. lra.
Qed.

Lemma fold_min_spec (l : list Q) (a : Q) :
  let m := fold_left (fun a b => if Qltb b a then b else a) l a in
  In m (a :: l) /\ Forall (fun y => (m <= y)%Q) (a :: l).
Proof.
  revert a. induction l as [|b l IH]; intro a; simpl.
  - split; [now left|]. constructor; [lra|constructor].
  - specialize (IH (if Qltb b a then b else a)). simpl in IH.
    destruct IH as [Hin Hall]. inversion Hall as [|? ? Hm Hl]; subst.
    destruct (Qltb b a) eqn:Hc.
    + apply Qltb_lt in Hc. split.
      * destruct Hin as [<-|Hin]; [right; now left | right; now right].
      * constructor; [lra|]. constructor; assumption.
    + apply Qltb_ge in Hc. split.
      * destruct Hin as [<-|Hin]; [now left | right; now right].
      * constructor; [assumption|]. constructor; [lra|assumption].
Qed.

Lemma fold_max_spec (l : list Q) (a : Q) :
  let m := fold_left (fun a b => if Qltb a b then b else a) l a in
  In m (a :: l) /\ Forall (fun y => (y <= m)%Q) (a :: l).
Proof.
  revert a. induction l as [|b l IH]; intro a; simpl.
  - split; [now left|]. constructor; [lra|constructor].
  - specialize (IH (if Qltb a b then b else a)). simpl in IH.
    destruct IH as [Hin Hall]. inversion Hall as [|? ? Hm Hl]; subst.
    destruct (Qltb a b) eqn:Hc.
    + apply Qltb_lt in Hc. split.
      * destruct Hin as [<-|Hin]; [right; now left | right; now right].
      * constructor; [lra|]. constructor; assumption.
    + apply Qltb_ge in Hc. split.
      * destruct Hin as [<-|Hin]; [now left | right; now right].
      * constructor; [assumption|]. constructor; [lra|assumption].
Qed.

Lemma tensor_min_spec (l : list Q) :
  l <> [] ->
  exists lo, tensor_min l = Ok lo /\ In lo l
             /\ Forall (fun y => (lo <= y)%Q) l.
Proof.
  destruct l as [|x l]; [congruence|]. intros _.
  eexists. split; [reflexivity|]. apply fold_min_spec.
Qed.

Lemma tensor_max_spec (l : list Q) :
  l <> [] ->
  exists hi, tensor_max l = Ok hi /\ In hi l
             /\ Forall (fun y => (y <= hi)%Q) l.
Proof.
  destruct l as [|x l]; [congruence|]. intros _.
  eexists. split; [reflexivity|]. apply fold_max_spec.
Qed.

Lemma out_of_range_iff (l : list Q) (lo hi : Q) :
  In lo l -> Forall (fun y => (lo <= y)%Q) l ->
  In hi l -> Forall (fun y => (y <= hi)%Q) l ->
  out_of_range lo hi = true <-> Exists outside l.
Proof.
  intros Hlo Hmin Hhi Hmax. unfold out_of_range.
  rewrite orb_true_iff, !Qltb_lt, Exists_exists. split.
  - intros [H|H]; [exists lo | exists hi]; split; auto;
      [now left | now right].
  - intros [v [Hv [H|H]]].
    + left. rewrite Forall_forall in Hmin. specialize (Hmin v Hv). lra.
    + right. rewrite Forall_forall in Hmax. specialize (Hmax v Hv). lra.
Qed.

Lemma inside_not_outside (l : list Q) :
  Forall inside l -> ~ Exists outside l.
Proof.
  intros Hin Hex. apply Exists_exists in Hex. destruct Hex as [v [Hv Ho]].
  rewrite Forall_forall in Hin. specialize (Hin v Hv).
  unfold inside, outside in *. lra.
Qed.

(** ** Feature extraction *)

Section FeatureExtraction.
Context {E : Env}.

Lemma check_and_extract_outside (self : TextMelLoader) (filename : pystr)
    (audio : list Q) (st : pystate) :
  audio <> [] -> Exists outside audio ->
  exists lo hi,
    tensor_min audio = Ok lo /\ tensor_max audio = Ok hi
    /\ check_and_extract self filename audio st
       = (Ok None, printed st (AudioRangeError filename lo hi)).
Proof.
  intros Hne Hex.
  destruct (tensor_min_spec audio Hne) as [lo [Hlo [Hloin Hmin]]].
  destruct (tensor_max_spec audio Hne) as [hi [Hhi [Hhiin Hmax]]].
  exists lo, hi. repeat split; auto.
  unfold check_and_extract, bind, lift. rewrite Hlo, Hhi.
  apply (out_of_range_iff audio lo hi Hloin Hmin Hhiin Hmax) in Hex.
  rewrite Hex. reflexivity.
Qed.

Lemma check_and_extract_inside (self : TextMelLoader) (filename : pystr)
    (audio : list Q) (st : pystate) :
  audio <> [] -> Forall inside audio ->
  check_and_extract self filename audio st = (extracted self audio, st).
Proof.
  intros Hne Hin.
  destruct (tensor_min_spec audio Hne) as [lo [Hlo [Hloin Hmin]]].
  destruct (tensor_max_spec audio Hne) as [hi [Hhi [Hhiin Hmax]]].
  unfold check_and_extract, bind, lift. rewrite Hlo, Hhi.
  destruct (out_of_range lo hi) eqn:Ho.
  - apply (out_of_range_iff audio lo hi Hloin Hmin Hhiin Hmax) in Ho.
    exfalso. exact (inside_not_outside audio Hin Ho).
  - unfold extracted, ret. destruct (features self audio); reflexivity.
Qed.

Lemma check_and_extract_empty (self : TextMelLoader) (filename : pystr)
    (st : pystate) :
  check_and_extract self filename [] st = (Raise RuntimeError, st).
Proof. reflexivity. Qed.

Lemma get_mel_raw (self : TextMelLoader) (filename : pystr)
    (audio : list Q) (native : Z) (st : pystate) :
  load_mel_from_disk self = false ->
  load_audio self filename = Ok (audio, native) ->
  get_mel self filename st
  = match resample_native self filename audio native st with
    | (Ok a, st1) => check_and_extract self filename a st1
    | (Raise e, st1) => (Raise e, st1)
    end.
Proof.
  intros Hd Hl. unfold get_mel. rewrite Hd. simpl.
  unfold bind at 1. unfold lift at 1. rewrite Hl.
  unfold bind at 1. simpl fst. simpl snd. reflexivity.
Qed.

(** C5, amended: in raw-audio mode the test is made on the waveform at
    [input_sample_rate], that is after the first resampling and before the
    second.  When that waveform is not empty: if one of its values is below
    -1 or above 1 the extractor prints a diagnostic and returns [None]
    without raising; otherwise it goes on to the second resampling and the
    features. *)
Theorem get_mel_range_check (self : TextMelLoader) (filename : pystr)
    (audio a : list Q) (native : Z) (st st1 : pystate) :
  load_mel_from_disk self = false ->
  load_audio self filename = Ok (audio, native) ->
  resample_native self filename audio native st = (Ok a, st1) ->
  a <> [] ->
  (Exists outside a ->
   exists lo hi,
     tensor_min a = Ok lo /\ tensor_max a = Ok hi
     /\ get_mel self filename st
        = (Ok None, printed st1 (AudioRangeError filename lo hi)))
  /\ (Forall inside a ->
      get_mel self filename st = (extracted self a, st1)).
Proof.
  intros Hd Hl Hr Hne.
  rewrite (get_mel_raw self filename audio native st Hd Hl), Hr.
  split.
  - intro Hex. now apply check_and_extract_outside.
  - intro Hin. now apply check_and_extract_inside.
Qed.

Lemma check_and_extract_unit (self : TextMelLoader) (filename : pystr)
    (a : list Q) (st : pystate) :
  Forall (fun v => (0 <= v <= 1)%Q) a ->
  fst (check_and_extract self filename a st) <> Ok None.
Proof.
  intro Hu. destruct a as [|x a'] eqn:Ha.
  - rewrite check_and_extract_empty. discriminate.
  - rewrite check_and_extract_inside.
    + unfold extracted. simpl.
      destruct (features self (x :: a')); discriminate.
    + discriminate.
    + eapply Forall_impl; [|exact Hu]. unfold inside. intros v Hv.
      simpl in Hv. lra.
Qed.

Lemma resample_native_unit (self : TextMelLoader) (filename : pystr)
    (audio a : list Q) (native : Z) (st st1 : pystate) :
  (native =? input_sample_rate self) = false ->
  resample_native self filename audio native st = (Ok a, st1) ->
  Forall (fun v => (0 <= v <= 1)%Q) a.
Proof.
  intros Hne. unfold resample_native. rewrite Hne. simpl.
  unfold bind, lift, ret.
  destruct (if native <? input_sample_rate self then _ else _) as [[u|e] s];
    [|discriminate].
  destruct (truediv (input_sample_rate self) native) as [scale|e];
    [|discriminate].
  destruct (interpolate_area audio scale); [|discriminate].
  intros [= <- _]. apply Forall_map, Forall_forall.
  intros v _. apply remap_range.
Qed.

(** C10: when the native rate differs from [input_sample_rate], every
    value the resampling branch yields lies in [0, 1], and the test that
    follows does not make [get_mel] return [None]. *)
Theorem resampled_never_out_of_range (self : TextMelLoader)
    (filename : pystr) (audio : list Q) (native : Z) (st : pystate) :
  (native =? input_sample_rate self) = false ->
  (forall a st1,
      resample_native self filename audio native st = (Ok a, st1) ->
      Forall (fun v => (0 <= v <= 1)%Q) a
      /\ fst (check_and_extract self filename a st1) <> Ok None)
  /\ (load_mel_from_disk self = false ->
      load_audio self filename = Ok (audio, native) ->
      fst (get_mel self filename st) <> Ok None).
Proof.
  intro Hne.
  assert (Hu : forall a st1,
             resample_native self filename audio native st = (Ok a, st1) ->
             Forall (fun v => (0 <= v <= 1)%Q) a)
    by (intros a st1; now apply resample_native_unit).
  split.
  - intros a st1 Hr. split; [eauto|].
    apply check_and_extract_unit. eauto.
  - intros Hd Hl.
    rewrite (get_mel_raw self filename audio native st Hd Hl).
    destruct (resample_native self filename audio native st)
      as [[a|e] st1] eqn:Hr.
    + apply check_and_extract_unit. eauto.
    + simpl. discriminate.
Qed.
End FeatureExtraction.

(** C5 as stated fails: the test comes before the second resampling.  The
    file holds [2, -2] at the input rate 2; resampled to the rate 1 this is
    [0], which lies within [-1, 1], and yet the extractor returns [None]. *)
Lemma get_mel_checks_before_second_resampling :
  let self := loader [] 2 1 false true None None true in
  let f := str "loud.flac" in
  let st := fresh audio_disk [] in
  load_audio (E := toy_env audio_disk) self f = Ok ([2; -2]%Q, 2)
  /\ resample_native self f [2; -2]%Q 2 st = (Ok [2; -2]%Q, st)
  /\ resample_target (E := toy_env audio_disk) self [2; -2]%Q = Ok [0%Q]
  /\ Forall inside [0%Q]
  /\ get_mel self f st = (Ok None, printed st (AudioRangeError f (-2) 2)).
Proof.
  split; [reflexivity|]. split; [reflexivity|]. split; [reflexivity|].
  split; [|reflexivity].
  constructor; [|constructor]. unfold inside. lra.
Qed.

Lemma get_mel_range_check_witness :
  let self := loader [] 2 2 false true None None true in
  let f := str "soft.flac" in
  let st := fresh audio_disk [] in
  let a := [1 # 2; -1 # 4]%Q in
  (Exists outside a ->
   exists lo hi,
     tensor_min a = Ok lo /\ tensor_max a = Ok hi
     /\ get_mel self f st
        = (Ok None, printed st (AudioRangeError f lo hi)))
  /\ (Forall inside a ->
      get_mel self f st = (extracted (E := toy_env audio_disk) self a, st)).
Proof.
  apply (get_mel_range_check (E := toy_env audio_disk)
           (loader [] 2 2 false true None None true) (str "soft.flac")
           [1 # 2; -1 # 4]%Q [1 # 2; -1 # 4]%Q 2
           (fresh audio_disk []) (fresh audio_disk [])).
  - reflexivity.
  - reflexivity.
  - reflexivity.
  - discriminate.
Defined.

Lemma resampled_never_out_of_range_witness :
  let self := loader [] 2 2 false true None None true in
  let f := str "fast.flac" in
  let st := fresh audio_disk [] in
  let audio := [3; -3; 1 # 2; 0]%Q in
  (forall a st1,
      resample_native (E := toy_env audio_disk) self f audio 4 st
      = (Ok a, st1) ->
      Forall (fun v => (0 <= v <= 1)%Q) a
      /\ fst (check_and_extract self f a st1) <> Ok None)
  /\ (load_mel_from_disk self = false ->
      load_audio (E := toy_env audio_disk) self f = Ok (audio, 4) ->
      fst (get_mel self f st) <> Ok None).
Proof.
  apply (resampled_never_out_of_range (E := toy_env audio_disk)
           (loader [] 2 2 false true None None true) (str "fast.flac")
           [3; -3; 1 # 2; 0]%Q 4 (fresh audio_disk [])).
  reflexivity.
Defined.

(** The three files through [get_mel], as raw waveforms at the rate 2. *)
Example get_mel_three_files :
  let self := loader [] 2 2 false true None None true in
  let st := fresh audio_disk [] in
  get_mel self (str "soft.flac") st
  = (Ok (Some (mkTensor2 2 [[1 # 2; -1 # 4]%Q])), st)
  /\ get_mel self (str "loud.flac") st
     = (Ok None, printed st (AudioRangeError (str "loud.flac") (-2) 2))
  /\ get_mel self (str "fast.flac") st
     = (Ok (Some (mkTensor2 2 [[1 # 2; 5 # 8]%Q])), st).
Proof. repeat split. Qed.

(** ** Dataset access *)

Section Access.
Context {E : Env}.

Lemma getitem_step (depth : nat) (self : TextMelLoader) (index : Z)
    (st st1 : pystate) (e : entry) (t : list Z) (m : option tensor2)
    (p : pystr) :
  py_index (audiopaths_and_text self) index = Ok e ->
  get_mel_text_pair self e st = (Ok (t, m, p), st1) ->
  getitem (S depth) self index st
  = if invalid self t m then
      match randint 0 (Z.of_nat (length (audiopaths_and_text self)) - 1)
              (after_diagnostic index t m p st1) with
      | (Ok rv, st3) => getitem depth self rv st3
      | (Raise ex, st3) => (Raise ex, st3)
      end
    else
      match m with
      | Some m' => (deliver self t m' p, st1)
      | None => (Raise AttributeError, st1)
      end.
Proof.
  intros Hi Hp. simpl. unfold bind at 1. unfold lift at 1. rewrite Hi.
  unfold bind at 1. rewrite Hp. cbv beta iota zeta. cbn [fst snd].
  destruct (invalid self t m).
  - unfold bind at 1. destruct m as [m'|].
    + unfold print, after_diagnostic, printed.
      unfold bind. reflexivity.
    + unfold ret, after_diagnostic. unfold bind. reflexivity.
  - destruct m; reflexivity.
Qed.

Lemma randint_in_range (n : nat) (st : pystate) :
  (0 < n)%nat ->
  exists rv st3,
    randint 0 (Z.of_nat n - 1) st = (Ok rv, st3)
    /\ 0 <= rv < Z.of_nat n
    /\ st_stdout st3 = st_stdout st.
Proof.
  intro Hn. unfold randint.
  destruct (Z.of_nat n - 1 + 1 - 0 <=? 0) eqn:Hw;
    [apply Z.leb_le in Hw; lia|].
  replace (Z.to_nat (Z.of_nat n - 1 + 1 - 0)) with n by lia.
  pose proof (randbelow_lt (st_random st) n Hn) as Hlt.
  destruct (randbelow (st_random st) n) as [r g]. simpl in Hlt.
  eexists. eexists. split; [reflexivity|]. simpl. split; [lia|reflexivity].
Qed.

Lemma py_index_nonempty {A} (l : list A) (i : Z) (x : A) :
  py_index l i = Ok x -> (0 < length l)%nat.
Proof.
  intro H. apply py_index_in in H. destruct l; [contradiction|simpl; lia].
Qed.

Lemma getitem_returns_valid (depth : nat) (self : TextMelLoader) :
  forall index st it st',
    getitem depth self index st = (Ok it, st') -> valid_sample self it.
Proof.
  induction depth as [|depth IH]; intros index st it st' H.
  - discriminate.
  - destruct (py_index (audiopaths_and_text self) index) as [e|ex] eqn:Hi.
    2:{ simpl in H. unfold bind at 1 in H. unfold lift at 1 in H.
        rewrite Hi in H. discriminate. }
    destruct (get_mel_text_pair self e st) as [[[[t m] p]|ex] st1] eqn:Hp.
    2:{ simpl in H. unfold bind at 1 in H. unfold lift at 1 in H.
        rewrite Hi in H. unfold bind at 1 in H. rewrite Hp in H.
        discriminate. }
    rewrite (getitem_step depth self index st st1 e t m p Hi Hp) in H.
    destruct (invalid self t m) eqn:Hinv.
    + destruct (randint _ _ _) as [[rv|ex] st3]; [|discriminate].
      eapply IH; eauto.
    + destruct m as [m'|]; [|discriminate].
      injection H as Hd _.
      exists e, st, st1, t, m', p. repeat split; auto.
      eapply py_index_in; eauto.
Qed.

(** C4, amended: for an index whose sample is invalid, access prints a
    diagnostic when the features are not [None], draws an index with
    [random.randint(0, len-1)], which is any index of the dataset, the
    current one included, and returns what access at that index returns,
    retrying again if that sample is invalid too; whatever sample access
    returns in the end is valid. *)
Theorem getitem_retry (depth : nat) (self : TextMelLoader) (index : Z)
    (st st1 : pystate) (e : entry) (t : list Z) (m : option tensor2)
    (p : pystr) :
  py_index (audiopaths_and_text self) index = Ok e ->
  get_mel_text_pair self e st = (Ok (t, m, p), st1) ->
  invalid self t m = true ->
  (exists rv st3,
      randint 0 (Z.of_nat (length (audiopaths_and_text self)) - 1)
        (after_diagnostic index t m p st1) = (Ok rv, st3)
      /\ 0 <= rv < Z.of_nat (length (audiopaths_and_text self))
      /\ st_stdout st3
         = st_stdout st1
           ++ match m with
              | Some m' => [InvalidSample index (size1 m') (length t) p]
              | None => []
              end
      /\ getitem (S depth) self index st = getitem depth self rv st3)
  /\ (forall it st',
         getitem (S depth) self index st = (Ok it, st') ->
         valid_sample self it).
Proof.
  intros Hi Hp Hinv. split.
  - destruct (randint_in_range (length (audiopaths_and_text self))
                (after_diagnostic index t m p st1)
                (py_index_nonempty _ _ _ Hi)) as [rv [st3 [Hr [Hb Hs]]]].
    exists rv, st3. repeat split; try lia; auto.
    + rewrite Hs. destruct m; simpl; [reflexivity|].
      now rewrite app_nil_r.
    + rewrite (getitem_step depth self index st st1 e t m p Hi Hp).
      now rewrite Hinv, Hr.
  - intros it st'. apply getitem_returns_valid.
Qed.

(** C9: with [needs_collate] false, what access returns is a dictionary
    with exactly the keys [padded_text], [input_lengths], [padded_mel],
    [output_lengths] and [filenames], and so without [padded_gate];
    [input_lengths] and [output_lengths] are the token count and the frame
    count of the sample before padding. *)
Theorem getitem_fixed_size_record (depth : nat) (self : TextMelLoader)
    (index : Z) (st st' : pystate) (it : item) :
  needs_collate self = false ->
  getitem depth self index st = (Ok it, st') ->
  exists e st1 st2 t m p t' m',
    In e (audiopaths_and_text self)
    /\ get_mel_text_pair self e st1 = (Ok (t, Some m, p), st2)
    /\ it = ItemDict
              [ ("padded_text"%string, VText t');
                ("input_lengths"%string, VLong (Z.of_nat (length t)));
                ("padded_mel"%string, VMel m');
                ("output_lengths"%string, VLong (Z.of_nat (size1 m)));
                ("filenames"%string, VStr p) ]
    /\ item_keys it
       = [ "padded_text"; "input_lengths"; "padded_mel"; "output_lengths";
           "filenames" ]%string
    /\ ~ In "padded_gate"%string (item_keys it).
Proof.
  intros Hnc H. apply getitem_returns_valid in H.
  destruct H as (e & st1 & st2 & t & m & p & Hin & Hp & _ & Hd).
  unfold deliver in Hd. rewrite Hnc in Hd. simpl in Hd.
  destruct (max_mel_len self) as [mm|]; [|discriminate].
  destruct (max_text_len self) as [mt|]; [|discriminate].
  injection Hd as <-.
  exists e, st1, st2, t, m, p. eexists. eexists.
  split; [exact Hin|]. split; [exact Hp|]. split; [reflexivity|].
  split; [reflexivity|].
  simpl. intros [H|[H|[H|[H|[H|[]]]]]]; discriminate.
Qed.
End Access.

(** C4 as stated fails.  Entry 1 is valid and entry 0 is not.  When the
    generator draws 0 and then 1, access at index 0 fetches index 0 again
    (two diagnostics for index 0) before it reaches entry 1: the index drawn
    is not a different one.  When it keeps drawing 0, access at index 0
    ends in [RecursionError] at depth 1000, although a valid sample
    exists. *)
Lemma getitem_redraws_same_index :
  fst (getitem 1 capped 1 (fresh dataset_disk []))
    = Ok (ItemTuple [104; 105] soft_mel (str "soft.flac"))
  /\ getitem 3 capped 0 (fresh dataset_disk [0; 1]%nat)
     = (Ok (ItemTuple [104; 105] soft_mel (str "soft.flac")),
        @mkState (toy_env dataset_disk) []
          [ InvalidSample 0 3 2 (str "long.flac");
            InvalidSample 0 3 2 (str "long.flac") ])
  /\ fst (getitem 1000 capped 0 (fresh dataset_disk []))
     = Raise RecursionError.
Proof.
  split; [reflexivity|]. split; [reflexivity|]. vm_compute. reflexivity.
Qed.

Lemma getitem_retry_witness :
  let st := fresh dataset_disk [1%nat] in
  let t := [104; 105] in
  let p := str "long.flac" in
  (exists rv st3,
      randint 0 (Z.of_nat (length (audiopaths_and_text capped)) - 1)
        (after_diagnostic 0 t (Some long_mel) p st) = (Ok rv, st3)
      /\ 0 <= rv < Z.of_nat (length (audiopaths_and_text capped))
      /\ st_stdout st3
         = st_stdout st ++ [InvalidSample 0 (size1 long_mel) (length t) p]
      /\ getitem 2 capped 0 st = getitem 1 capped rv st3)
  /\ (forall it st',
         getitem 2 capped 0 st = (Ok it, st') ->
         valid_sample (E := toy_env dataset_disk) capped it).
Proof.
  apply (getitem_retry (E := toy_env dataset_disk) 1 capped 0
           (fresh dataset_disk [1%nat]) (fresh dataset_disk [1%nat])
           (str "long.flac", str "hi") [104; 105] (Some long_mel)
           (str "long.flac")).
  - reflexivity.
  - reflexivity.
  - reflexivity.
Defined.

Lemma getitem_fixed_size_record_witness :
  let it :=
    ItemDict
      [ ("padded_text"%string, VText [104; 105; 0]);
        ("input_lengths"%string, VLong 2);
        ("padded_mel"%string, VMel (mkTensor2 4 [[1 # 2; -1 # 4; 0; 0]%Q]));
        ("output_lengths"%string, VLong 2);
        ("filenames"%string, VStr (str "soft.flac")) ] in
  exists e st1 st2 t m p t' m',
    In e (audiopaths_and_text fixed_size)
    /\ get_mel_text_pair (E := toy_env dataset_disk) fixed_size e st1
       = (Ok (t, Some m, p), st2)
    /\ it = ItemDict
              [ ("padded_text"%string, VText t');
                ("input_lengths"%string, VLong (Z.of_nat (length t)));
                ("padded_mel"%string, VMel m');
                ("output_lengths"%string, VLong (Z.of_nat (size1 m)));
                ("filenames"%string, VStr p) ]
    /\ item_keys it
       = [ "padded_text"; "input_lengths"; "padded_mel"; "output_lengths";
           "filenames" ]%string
    /\ ~ In "padded_gate"%string (item_keys it).
Proof.
  apply (getitem_fixed_size_record (E := toy_env dataset_disk) 1 fixed_size 1
           (fresh dataset_disk []) (fresh dataset_disk [])).
  - reflexivity.
  - reflexivity.
Defined.

(** ** Further facts *)

Section MoreFacts.
Context {TS : TorchSort} {E : Env}.

(** The gate rows of samples that have at least one frame: 1.0 from the
    last real frame on, 0.0 before it. *)
Lemma collate_gate_rows (n : Z) (batch : list sample) :
  batch <> [] -> 0 < n -> same_channels batch ->
  exists b,
    collate n batch = Ok b
    /\ Forall2 (fun g o =>
                  1 <= o ->
                  forall j, (j < target_len n batch)%nat ->
                    (o - 1 <= Z.of_nat j -> nth j g 0%Q = 1%Q)
                    /\ (Z.of_nat j < o - 1 -> nth j g 0%Q = 0%Q))
               (padded_gate b) (output_lengths b).
Proof.
  intros Hne Hn Hch. exists (collated n batch).
  split; [now apply collate_closed_form|]. simpl.
  apply Forall2_map_same, Forall_forall. intros i _ Ho j Hj.
  split; intro H; [apply gate_row_one | apply gate_row_zero]; lia.
Qed.

(** With [needs_collate] false and both caps set, access at a valid sample
    returns the record at once, padded to the caps. *)
Lemma getitem_fixed_size_returns (depth : nat) (self : TextMelLoader)
    (index : Z) (st st1 : pystate) (e : entry) (t : list Z) (m : tensor2)
    (p : pystr) (mm mt : Z) :
  needs_collate self = false ->
  max_mel_len self = Some mm -> max_text_len self = Some mt ->
  py_index (audiopaths_and_text self) index = Ok e ->
  get_mel_text_pair self e st = (Ok (t, Some m, p), st1) ->
  invalid self t (Some m) = false ->
  exists t' m',
    getitem (S depth) self index st
    = (Ok (ItemDict
             [ ("padded_text"%string, VText t');
               ("input_lengths"%string, VLong (Z.of_nat (length t)));
               ("padded_mel"%string, VMel m');
               ("output_lengths"%string, VLong (Z.of_nat (size1 m)));
               ("filenames"%string, VStr p) ]), st1)
    /\ Z.of_nat (length t') = mt /\ Z.of_nat (size1 m') = mm.
Proof.
  intros Hnc Hmm Hmt Hi Hp Hv.
  rewrite (getitem_step depth self index st st1 e t (Some m) p Hi Hp), Hv.
  unfold deliver. rewrite Hnc, Hmm, Hmt. simpl negb. cbv iota.
  eexists. eexists. split; [reflexivity|].
  unfold invalid, exceeds in Hv. rewrite Hmm, Hmt in Hv.
  apply orb_false_iff in Hv. destruct Hv as [Hv1 Hv2].
  apply Z.ltb_ge in Hv1, Hv2. split.
  - destruct (Z.of_nat (length t) =? mt) eqn:Hc; simpl.
    + now apply Z.eqb_eq in Hc.
    + unfold pad_right.
      destruct (mt - Z.of_nat (length t) <? 0) eqn:Hneg;
        [apply Z.ltb_lt in Hneg; lia|].
      rewrite length_app, repeat_length. lia.
  - destruct (Z.of_nat (size1 m) =? mm) eqn:Hc; simpl.
    + now apply Z.eqb_eq in Hc.
    + lia.
Qed.

(** A retry that draws a valid sample returns it. *)
Lemma getitem_retry_reaches (depth : nat) (self : TextMelLoader) (index rv : Z)
    (st st1 st3 st4 : pystate) (e e' : entry) (t t' : list Z)
    (m : option tensor2) (m' : tensor2) (p p' : pystr) :
  py_index (audiopaths_and_text self) index = Ok e ->
  get_mel_text_pair self e st = (Ok (t, m, p), st1) ->
  invalid self t m = true ->
  randint 0 (Z.of_nat (length (audiopaths_and_text self)) - 1)
    (after_diagnostic index t m p st1) = (Ok rv, st3) ->
  py_index (audiopaths_and_text self) rv = Ok e' ->
  get_mel_text_pair self e' st3 = (Ok (t', Some m', p'), st4) ->
  invalid self t' (Some m') = false ->
  getitem (S (S depth)) self index st = (deliver self t' m' p', st4).
Proof.
  intros Hi Hp Hinv Hr Hi' Hp' Hv.
  rewrite (getitem_step (S depth) self index st st1 e t m p Hi Hp).
  rewrite Hinv, Hr.
  rewrite (getitem_step depth self rv st3 st4 e' t' (Some m') p' Hi' Hp').
  now rewrite Hv.
Qed.

(** On a line whose content neither begins nor ends with white space the
    columns are the content split on tabs. *)
Lemma columns_clean_line (body : pystr) :
  body <> [] ->
  is_space (hd 0%N body) = false -> is_space (last body 0%N) = false ->
  columns (body ++ [10%N]) = split_on tab body.
Proof. intros. unfold columns. now rewrite strip_line. Qed.
End MoreFacts.


(* ================================================================= *)
(** * Further properties of the module *)

(** ** The collator at its edges *)

Lemma rmap_raise {A B} (f : A -> result B) (e : exn) (l : list A) :
  Forall (fun x => (exists y, f x = Ok y) \/ f x = Raise e) l ->
  Exists (fun x => f x = Raise e) l ->
  rmap f l = Raise e.
Proof.
  induction 1 as [|x l Hx Hl IH]; intro Hex; [inversion Hex|].
  simpl. destruct Hx as [[y Hy]|Hx]; [|now rewrite Hx].
  rewrite Hy. simpl. inversion Hex as [? ? H|? ? H]; subst; [congruence|].
  now rewrite (IH H).
Qed.

Lemma assign_mel_cases (num_mels len : nat) (m : tensor2) :
  (exists y, assign_mel num_mels len m = Ok y)
  \/ assign_mel num_mels len m = Raise RuntimeError.
Proof.
  unfold assign_mel.
  destruct (negb _); [now right|].
  destruct (size0 m =? num_mels)%nat; [left; eauto|].
  destruct (size0 m =? 1)%nat; [left; eauto | now right].
Qed.

Lemma assign_mel_misfit (num_mels len : nat) (x : sample) :
  misfit num_mels x -> (size1 (s_mel x) <= len)%nat ->
  assign_mel num_mels len (s_mel x) = Raise RuntimeError.
Proof.
  intros [H0 H1] Hle. unfold assign_mel.
  rewrite Nat.min_l by assumption. rewrite Nat.eqb_refl. simpl.
  apply Nat.eqb_neq in H0, H1. now rewrite H0, H1.
Qed.

Lemma combine_map_same {A B C} (f : A -> B) (g : A -> C) (l : list A) :
  combine (map f l) (map g l) = map (fun x => (f x, g x)) l.
Proof. induction l; simpl; f_equal; auto. Qed.

Section CollateEdges.
Context {TS : TorchSort}.

Lemma torch_sort_nil : torch_sort [] = ([], []).
Proof.
  pose proof (torch_sort_perm []) as Hp.
  pose proof (torch_sort_gather []) as Hg.
  destruct (torch_sort []) as [lens ids]. simpl in *.
  apply Permutation_sym, Permutation_nil in Hp. subst. reflexivity.
Qed.

(** X1: an empty batch is refused with [IndexError] (line 154 reads the first
    sorted length), whatever [n_frames_per_step] is. *)
Theorem collate_empty_batch (n : Z) : collate n [] = Raise IndexError.
Proof. unfold collate. simpl. now rewrite torch_sort_nil. Qed.

(** The collator up to the rounding of the mel length: the text loop of a
    batch that is not empty never fails. *)
Lemma collate_after_text (n : Z) (batch : list sample) :
  batch <> [] ->
  collate n batch
  = (len <-- round_target_len n (Z.of_nat (max_frames batch)) ;;
     if len <? 0 then Raise RuntimeError
     else
       mg <-- collate_mel batch (size0 (s_mel (pick batch 0)))
                (Z.to_nat len) (sorted_ids batch) ;;
       Ok (mkBatch
             (map (fun i => pad_text_row (max_text batch)
                              (s_text (pick batch i))) (sorted_ids batch))
             (fst (torch_sort (text_lengths batch)))
             (map (fun x => fst (fst x)) mg)
             (map (fun x => snd (fst x)) mg)
             (map snd mg)
             (map (fun i => s_fname (pick batch i)) (sorted_ids batch)))).
Proof.
  intro Hne. unfold collate.
  pose proof (perm_seq_lt _ _ (sorted_ids_perm batch)) as Hlt.
  destruct (sorted_head_max batch Hne) as [rest Hhead].
  unfold sorted_ids in *. fold (text_lengths batch).
  destruct (torch_sort (text_lengths batch)) as [lens ids] eqn:Hsort.
  simpl in *. subst lens. rewrite Nat2Z.id.
  unfold collate_text.
  rewrite (rmap_ok _ (fun i => (pad_text_row (max_text batch)
                                  (s_text (pick batch i)),
                                s_fname (pick batch i)))).
  2:{ eapply Forall_impl; [|exact Hlt]. intros i Hi. simpl in Hi.
      rewrite (nth_error_pick batch i Hi).
      rewrite assign_prefix_zeros; [reflexivity|].
      apply fold_max_ge. apply (in_map text_len), pick_in, Hi. }
  simpl rbind. destruct batch as [|b0 batch']; [congruence|].
  rewrite !map_map. reflexivity.
Qed.

(** X2: with [n_frames_per_step = 0] a batch that is not empty is refused
    with [ZeroDivisionError] (the [%] of line 167). *)
Theorem collate_zero_step (batch : list sample) :
  batch <> [] -> collate 0 batch = Raise ZeroDivisionError.
Proof. intro Hne. now rewrite (collate_after_text 0 batch Hne). Qed.

(** X3: a batch in which some mel has neither the channel count of the first
    mel nor a single channel is refused with [RuntimeError] (the assignment
    of line 179). *)
Theorem collate_channel_mismatch (n : Z) (batch : list sample) :
  0 < n ->
  Exists (misfit (size0 (s_mel (pick batch 0)))) batch ->
  collate n batch = Raise RuntimeError.
Proof.
  intros Hn Hex.
  assert (Hne : batch <> []) by (intros ->; inversion Hex).
  rewrite (collate_after_text n batch Hne).
  destruct (target_len_bounds n batch Hn) as [Hr [_ [Hge _]]].
  rewrite Hr. simpl rbind.
  destruct (Z.of_nat (target_len n batch) <? 0) eqn:Hneg;
    [apply Z.ltb_lt in Hneg; lia|].
  rewrite Nat2Z.id. unfold collate_mel.
  pose proof (perm_seq_lt _ _ (sorted_ids_perm batch)) as Hlt.
  rewrite (rmap_raise _ RuntimeError); [reflexivity| |].
  - eapply Forall_impl; [|exact Hlt]. intros i Hi. simpl in Hi.
    rewrite (nth_error_pick batch i Hi).
    destruct (assign_mel_cases (size0 (s_mel (pick batch 0)))
                (target_len n batch) (s_mel (pick batch i))) as [[y Hy]|Hy];
      rewrite Hy; simpl; [left; eauto | now right].
  - apply Exists_exists in Hex. destruct Hex as [x [Hin Hmis]].
    destruct (In_nth batch x no_sample Hin) as [i [Hi Hx]].
    apply Exists_exists. exists i. split.
    + apply (Permutation_in _ (Permutation_sym (sorted_ids_perm batch))).
      apply in_seq. lia.
    + rewrite (nth_error_pick batch i Hi). unfold pick. rewrite Hx.
      rewrite assign_mel_misfit; [reflexivity|exact Hmis|].
      etransitivity; [|exact Hge]. apply fold_max_ge.
      apply (in_map (fun x => size1 (s_mel x))), Hin.
Qed.

Lemma unpad_collated (n : Z) (batch : list sample) :
  0 < n -> Forall (fun x => wf_tensor2 (s_mel x)) batch ->
  unpad (collated n batch) = map (pick batch) (sorted_ids batch).
Proof.
  intros Hn Hwf. unfold unpad, collated.
  cbn [padded_text input_lengths padded_mel output_lengths filenames].
  rewrite sorted_lengths. rewrite !combine_map_same, map_map.
  apply map_ext_Forall.
  pose proof (perm_seq_lt _ _ (sorted_ids_perm batch)) as Hlt.
  eapply Forall_impl; [|exact Hlt]. intros i Hi. simpl in Hi.
  pose proof (pick_in batch i Hi) as Hin.
  rewrite Forall_forall in Hwf. specialize (Hwf _ Hin).
  cbn [fst snd]. unfold unpad_sample, text_len, frame_count, pad_text_row.
  rewrite !Nat2Z.id.
  destruct (pick batch i) as [t [cols rws] f]. cbn [s_text s_mel s_fname] in *.
  unfold wf_tensor2 in Hwf. cbn [size1 rows] in *.
  f_equal.
  - rewrite firstn_app, Nat.sub_diag, firstn_all. simpl. apply app_nil_r.
  - f_equal. cbn [pad_mel_block rows size1]. rewrite map_map.
    rewrite <- (map_id rws) at 2. apply map_ext_Forall.
    eapply Forall_impl; [|exact Hwf]. intros r Hr. simpl in Hr.
    rewrite (firstn_all2 (n := cols) r) by lia.
    rewrite firstn_app. rewrite <- Hr, Nat.sub_diag, firstn_all. simpl.
    apply app_nil_r.
Qed.

(** X4: collation loses nothing.  Cutting every row of the collated batch at
    its recorded length gives back the samples of the batch (in the sorted
    order, so as a permutation of the batch). *)
Theorem collate_unpad (n : Z) (batch : list sample) :
  batch <> [] -> 0 < n -> same_channels batch ->
  Forall (fun x => wf_tensor2 (s_mel x)) batch ->
  exists b, collate n batch = Ok b /\ Permutation (unpad b) batch.
Proof.
  intros Hne Hn Hch Hwf. exists (collated n batch).
  split; [now apply collate_closed_form|].
  rewrite (unpad_collated n batch Hn Hwf).
  apply gather_perm, sorted_ids_perm.
Qed.

(** X5: a batch of one sample goes through the same padding: its text is
    left as it is, its mel is padded to the next multiple of
    [n_frames_per_step], its gate is built for that length. *)
Theorem collate_single (n : Z) (x : sample) :
  0 < n ->
  collate n [x]
  = Ok (mkBatch [s_text x] [Z.of_nat (text_len x)]
                [pad_mel_block (target_len n [x]) (s_mel x)]
                [gate_row (target_len n [x]) (frame_count x)]
                [Z.of_nat (frame_count x)] [s_fname x])
  /\ Z.of_nat (target_len n [x]) mod n = 0
  /\ (frame_count x <= target_len n [x])%nat
  /\ Z.of_nat (target_len n [x]) < Z.of_nat (frame_count x) + n.
Proof.
  intro Hn.
  destruct (target_len_bounds n [x] Hn) as [_ [Hmod [Hge Hlt]]].
  unfold max_frames in Hge, Hlt. simpl in Hge, Hlt.
  rewrite Nat.max_0_r in Hge, Hlt.
  split; [|repeat split; assumption].
  rewrite collate_closed_form;
    [|discriminate|assumption|repeat constructor].
  unfold collated. rewrite sorted_lengths.
  pose proof (sorted_ids_perm [x]) as Hp. simpl in Hp.
  apply Permutation_sym, Permutation_length_1_inv in Hp.
  rewrite Hp. simpl.
  unfold pad_text_row, max_text. simpl.
  rewrite Nat.max_0_r. unfold text_len. rewrite Nat.sub_diag. simpl.
  now rewrite app_nil_r.
Qed.
End CollateEdges.

Lemma collate_zero_step_witness :
  collate (TS := stable_torch_sort) 0 batch_5_2_8 = Raise ZeroDivisionError.
Proof.
  apply (collate_zero_step (TS := stable_torch_sort) batch_5_2_8).
  discriminate.
Defined.

Lemma collate_channel_mismatch_witness :
  collate (TS := stable_torch_sort) 4 batch_mixed_channels
  = Raise RuntimeError.
Proof.
  apply (collate_channel_mismatch (TS := stable_torch_sort) 4
           batch_mixed_channels).
  - lia.
  - apply Exists_cons_tl, Exists_cons_hd. split; discriminate.
Defined.

Lemma collate_unpad_witness :
  exists b,
    collate (TS := stable_torch_sort) 4 batch_5_2_8 = Ok b
    /\ Permutation (unpad b) batch_5_2_8.
Proof.
  apply (collate_unpad (TS := stable_torch_sort) 4 batch_5_2_8).
  - discriminate.
  - lia.
  - repeat constructor.
  - repeat constructor.
Defined.

Lemma collate_single_witness :
  let x := mkSample [5] (flat_mel 1 1) (str "a.wav") in
  collate (TS := stable_torch_sort) 2 [x]
  = Ok (mkBatch [s_text x] [Z.of_nat (text_len x)]
                [pad_mel_block (target_len 2 [x]) (s_mel x)]
                [gate_row (target_len 2 [x]) (frame_count x)]
                [Z.of_nat (frame_count x)] [s_fname x])
  /\ Z.of_nat (target_len 2 [x]) mod 2 = 0
  /\ (frame_count x <= target_len 2 [x])%nat
  /\ Z.of_nat (target_len 2 [x]) < Z.of_nat (frame_count x) + 2.
Proof.
  apply (collate_single (TS := stable_torch_sort) 2
           (mkSample [5] (flat_mel 1 1) (str "a.wav"))).
  lia.
Defined.

Section CollateGate.
Context {TS : TorchSort}.

End CollateGate.


(** ** Dumping collated mels *)

Section DumpFacts.
Context {TS : TorchSort} {E : Env}.


End DumpFacts.

(** ** The manifest loader at its edges *)

Lemma rmap_ok_inv {A B} (f : A -> result B) (l : list A) (ys : list B) :
  rmap f l = Ok ys -> Forall2 (fun x y => f x = Ok y) l ys.
Proof.
  revert ys. induction l as [|x l IH]; simpl; intros ys H.
  - injection H as <-. constructor.
  - destruct (f x) as [y|e] eqn:Hx; [|discriminate]. simpl in H.
    destruct (rmap f l) as [ys'|e] eqn:Hl; [|discriminate]. simpl in H.
    injection H as <-. constructor; auto.
Qed.

Lemma split_on_no_sep (sep : N) (s : pystr) :
  Forall (fun w => ~ In sep w) (split_on sep s).
Proof.
  induction s as [|c s IH]; simpl.
  - constructor; [tauto|constructor].
  - destruct (c =? sep)%N eqn:Hc.
    + constructor; [tauto|exact IH].
    + apply N.eqb_neq in Hc.
      destruct (split_on sep s) as [|w ws]; simpl.
      * constructor; [|constructor]. intros [H|[]]. congruence.
      * inversion IH as [|? ? Hw Hws]; subst.
        constructor; [|exact Hws]. intros [H|H]; [congruence|tauto].
Qed.

Lemma mozilla_cv_entry_cases (row : list pystr) :
  (exists y, mozilla_cv_entry row = Ok y)
  \/ mozilla_cv_entry row = Raise IndexError.
Proof.
  destruct (Nat.lt_ge_cases (length row) 3) as [H|H].
  - right. now apply mozilla_cv_entry_short.
  - left. eexists. now apply mozilla_cv_entry_ok.
Qed.

Lemma tl_map {A B} (f : A -> B) (l : list A) : tl (map f l) = map f (tl l).
Proof. destruct l; reflexivity. Qed.

Section ManifestEdges.
Context {E : Env}.

(** X8: a data row with fewer than three columns (a blank line, for one)
    makes [load_mozilla_cv] raise [IndexError]; rows are not skipped. *)
Theorem load_mozilla_cv_short_row (filename : pystr) (lines : list pystr) :
  open_utf8 filename = Ok lines ->
  Exists (fun line => (length (columns line) < 3)%nat) (tl lines) ->
  load_mozilla_cv filename = Raise IndexError.
Proof.
  intros Hopen Hex. unfold load_mozilla_cv. rewrite Hopen. simpl.
  unfold mozilla_cv_entries. rewrite tl_map.
  apply rmap_raise.
  - apply Forall_forall. intros row _. apply mozilla_cv_entry_cases.
  - apply Exists_exists in Hex. destruct Hex as [line [Hin Hshort]].
    apply Exists_exists. exists (columns line). split.
    + now apply in_map.
    + now apply mozilla_cv_entry_short.
Qed.

(** X9: when [load_mozilla_cv] returns, there is one entry per line after
    the header, every path is [clips/] followed by a name, and neither that
    name nor the transcript contains a tab. *)
Theorem load_mozilla_cv_entries_shape (filename : pystr)
    (lines : list pystr) (entries : list entry) :
  open_utf8 filename = Ok lines ->
  load_mozilla_cv filename = Ok entries ->
  length entries = (length lines - 1)%nat
  /\ Forall (fun e => exists name,
                 fst e = str "clips/" ++ name
                 /\ ~ In tab name /\ ~ In tab (snd e)) entries.
Proof.
  intros Hopen Hload. unfold load_mozilla_cv in Hload.
  rewrite Hopen in Hload. simpl in Hload.
  unfold mozilla_cv_entries in Hload. rewrite tl_map in Hload.
  apply rmap_ok_inv in Hload. split.
  - rewrite <- (Forall2_length Hload), length_map.
    destruct lines; simpl; lia.
  - remember (map columns (tl lines)) as rws eqn:Hr.
    assert (Hrows : Forall (fun row => Forall (fun w => ~ In tab w) row) rws).
    { subst rws. apply Forall_map, Forall_forall. intros line _.
      apply split_on_no_sep. }
    clear Hr. induction Hload as [|row e rws' es Hrow _ IH]; [constructor|].
    inversion Hrows as [|? ? Hcols Hrest]; subst.
    constructor; [|now apply IH].
    destruct (Nat.lt_ge_cases (length row) 3) as [Hs|Hs].
    + rewrite (mozilla_cv_entry_short row Hs) in Hrow. discriminate.
    + rewrite (mozilla_cv_entry_ok row Hs) in Hrow. injection Hrow as <-.
      rewrite Forall_forall in Hcols.
      exists (nth 1 row []). simpl. repeat split.
      * apply Hcols, nth_In. lia.
      * apply Hcols, nth_In. lia.
Qed.
End ManifestEdges.

Lemma load_mozilla_cv_short_row_witness :
  load_mozilla_cv
    (E := toy_env (mkDisk [(str "m.tsv", manifest_lines ++ [[10%N]])] [] [] []))
    (str "m.tsv")
  = Raise IndexError.
Proof.
  apply (load_mozilla_cv_short_row
           (E := toy_env (mkDisk [(str "m.tsv", manifest_lines ++ [[10%N]])]
                                 [] [] []))
           (str "m.tsv") (manifest_lines ++ [[10%N]])).
  - reflexivity.
  - apply Exists_cons_tl, Exists_cons_tl, Exists_cons_hd. vm_compute. lia.
Defined.

Lemma load_mozilla_cv_entries_shape_witness :
  let entries := [ (str "clips/one.mp3", str "hello world");
                   (str "clips/two.mp3", str "good bye") ] in
  length entries = (length manifest_lines - 1)%nat
  /\ Forall (fun e => exists name,
                 fst e = str "clips/" ++ name
                 /\ ~ In tab name /\ ~ In tab (snd e)) entries.
Proof.
  apply (load_mozilla_cv_entries_shape (E := toy_env manifest_disk)
           (str "cv/train.tsv") manifest_lines).
  - reflexivity.
  - reflexivity.
Defined.

(** ** Construction: what it keeps and what it changes *)

Lemma set_nth_take_out {A} (x : list A) (j : nat) (b h : A) :
  nth_error x j = Some b -> Permutation (b :: set_nth x j h) (h :: x).
Proof.
  revert j. induction x as [|a x IH]; intros [|j] H; simpl in *;
    try discriminate.
  - injection H as ->. apply perm_swap.
  - rewrite perm_swap. rewrite (perm_swap a h x).
    apply perm_skip. now apply IH.
Qed.

Lemma set_nth_same {A} (x : list A) (i : nat) (a : A) :
  nth_error x i = Some a -> set_nth x i a = x.
Proof.
  revert i. induction x as [|h x IH]; intros [|i] H; simpl in *;
    try discriminate; try reflexivity.
  - now injection H as ->.
  - f_equal. now apply IH.
Qed.

Lemma swap_perm {A} (x : list A) (i j : nat) : Permutation (swap x i j) x.
Proof.
  unfold swap.
  destruct (nth_error x i) as [a|] eqn:Hi; [|reflexivity].
  destruct (nth_error x j) as [b|] eqn:Hj; [|reflexivity].
  revert i j Hi Hj. induction x as [|h x IH]; intros i j Hi Hj.
  - destruct i; discriminate.
  - destruct i as [|i], j as [|j]; simpl in *.
    + injection Hi as ->. injection Hj as ->. reflexivity.
    + injection Hi as ->. now apply set_nth_take_out.
    + injection Hj as ->. now apply set_nth_take_out.
    + apply perm_skip. now apply IH.
Qed.

Section ConstructionFacts.
Context {E : Env}.

Lemma shuffle_from_perm {A} (i : nat) (x : list A) (g : rng) :
  Permutation (fst (shuffle_from i x g)) x.
Proof.
  revert x g. induction i as [|i IH]; intros x g; simpl; [reflexivity|].
  destruct (randbelow g (S (S i))) as [j g'].
  rewrite IH. apply swap_perm.
Qed.

(** X10: construction keeps the manifest: the loader's entry list is a
    permutation of the entries the fetcher read, so the dataset has as many
    items as the manifest has entries. *)
Theorem init_keeps_entries (hp : hparams) (st st' : pystate)
    (self : TextMelLoader) :
  init hp st = (Ok self, st') ->
  exists entries,
    manifest_of hp = Ok entries
    /\ Permutation (audiopaths_and_text self) entries
    /\ dataset_len self = length entries.
Proof.
  rewrite init_cases.
  destruct (manifest_of hp) as [entries|e]; [|discriminate].
  destruct (_ && _); [discriminate|].
  destruct (TacotronSTFT _); [|discriminate]. simpl.
  destruct (inconsistent hp); [discriminate|].
  intros [= <- _]. exists entries. split; [reflexivity|].
  assert (Hp : Permutation (shuffled_with (hp_seed hp) entries) entries)
    by apply shuffle_from_perm.
  split; [exact Hp|]. unfold dataset_len. simpl.
  now apply Permutation_length.
Qed.

(** X11: construction prints nothing and, once the manifest is read, the two
    flags agree and the STFT is built, leaves the process-wide generator in
    the state the seeded shuffle ends in, whatever state it was in before and
    whether or not the later check on the caps fails. *)
Theorem init_reseeds (hp : hparams) (st : pystate) (entries : list entry)
    (the_stft : stft) :
  manifest_of hp = Ok entries ->
  hp_load_mel_from_disk hp && opt_get (hp_return_wavs hp) false = false ->
  TacotronSTFT (stft_params hp) = Ok the_stft ->
  st_stdout (snd (init hp st)) = st_stdout st
  /\ st_random (snd (init hp st))
     = snd (shuffle_from (length entries - 1) entries
              (random_seed (hp_seed hp))).
Proof.
  intros Hm Hw Hs. rewrite init_cases, Hm, Hw, Hs. simpl.
  destruct (inconsistent hp); split; reflexivity.
Qed.

(** When the STFT constructor refuses the parameters, construction fails
    with its error before the generator is seeded. *)
Lemma init_stft_failure (hp : hparams) (st : pystate)
    (entries : list entry) (e : exn) :
  manifest_of hp = Ok entries ->
  hp_load_mel_from_disk hp && opt_get (hp_return_wavs hp) false = false ->
  TacotronSTFT (stft_params hp) = Raise e ->
  init hp st = (Raise e, st).
Proof. intros Hm Hw Hs. now rewrite init_cases, Hm, Hw, Hs. Qed.

(** X12: a construction that fails before the shuffle (the fetcher mode is
    not recognised, the manifest cannot be read, or [load_mel_from_disk] and
    [return_wavs] are both set) leaves the interpreter state as it was: the
    generator is not reseeded. *)
Theorem init_early_failure (hp : hparams) (st : pystate) :
  (exists e, manifest_of hp = Raise e)
  \/ hp_load_mel_from_disk hp && opt_get (hp_return_wavs hp) false = true ->
  snd (init hp st) = st /\ exists e, fst (init hp st) = Raise e.
Proof.
  intros H. rewrite init_cases.
  destruct (manifest_of hp) as [entries|e].
  - destruct H as [[e He]|H]; [discriminate|]. rewrite H.
    split; [reflexivity | eexists; reflexivity].
  - split; [reflexivity | eexists; reflexivity].
Qed.

(** A fetcher mode other than [lj] and [mozilla_cv] is refused with
    [NotImplementedError] before anything is read, printed or seeded. *)
Theorem init_fetcher_mode (hp : hparams) (st : pystate) (mode : string) :
  hp_fetcher_mode hp = Some mode ->
  mode <> "lj"%string -> mode <> "mozilla_cv"%string ->
  init hp st = (Raise NotImplementedError, st).
Proof.
  intros Hmode Hlj Hcv. rewrite init_cases. unfold manifest_of.
  rewrite Hmode. simpl.
  apply String.eqb_neq in Hlj, Hcv. now rewrite Hlj, Hcv.
Qed.

(** X13: with [input_sample_rate] unset the loader takes [sampling_rate]
    for it, so its feature extraction never resamples a second time; with
    [needs_collate] unset the loader collates later, so construction does
    not ask for the caps. *)
Theorem init_defaults (hp : hparams) (st st' : pystate)
    (self : TextMelLoader) :
  init hp st = (Ok self, st') ->
  (hp_input_sample_rate hp = None ->
   input_sample_rate self = sampling_rate self
   /\ forall audio, resample_target self audio = Ok audio)
  /\ (hp_needs_collate hp = None -> needs_collate self = true)
  /\ (hp_return_wavs hp = None -> return_wavs self = false).
Proof.
  rewrite init_cases.
  destruct (manifest_of hp) as [entries|e]; [|discriminate].
  destruct (_ && _); [discriminate|].
  destruct (TacotronSTFT _); [|discriminate]. simpl.
  destruct (inconsistent hp); [discriminate|].
  intros [= <- _]. split; [|split].
  - intro Hu. split.
    + simpl. now rewrite Hu.
    + intro audio. unfold resample_target. simpl. rewrite Hu. simpl.
      now rewrite Z.eqb_refl.
  - intro Hu. simpl. now rewrite Hu.
  - intro Hu. simpl. now rewrite Hu.
Qed.
End ConstructionFacts.

Lemma init_keeps_entries_witness :
  let hp := config (str "cv/train.tsv") (Some "mozilla_cv"%string)
                   false None 22050 None None None None in
  let self := loader_of_manifest in
  exists entries,
    manifest_of (E := toy_env manifest_disk) hp = Ok entries
    /\ Permutation (audiopaths_and_text self) entries
    /\ dataset_len self = length entries.
Proof.
  apply (init_keeps_entries (E := toy_env manifest_disk)
           (config (str "cv/train.tsv") (Some "mozilla_cv"%string)
                   false None 22050 None None None None)
           (fresh manifest_disk [])
           (@mkState (toy_env manifest_disk)
              [1235; 1236; 1237; 1238; 1239; 1240; 1241]%nat [])
           loader_of_manifest).
  reflexivity.
Defined.

Lemma init_reseeds_witness :
  let hp := config (str "cv/train.tsv") (Some "mozilla_cv"%string)
                   false None 22050 None None None None in
  let st := fresh manifest_disk [7; 7; 7]%nat in
  let entries := [ (str "clips/one.mp3", str "hello world");
                   (str "clips/two.mp3", str "good bye") ] in
  st_stdout (snd (init (E := toy_env manifest_disk) hp st)) = st_stdout st
  /\ st_random (snd (init (E := toy_env manifest_disk) hp st))
     = snd (shuffle_from (E := toy_env manifest_disk) (length entries - 1)
              entries (random_seed (hp_seed hp))).
Proof.
  apply (init_reseeds (E := toy_env manifest_disk)
           (config (str "cv/train.tsv") (Some "mozilla_cv"%string)
                   false None 22050 None None None None)
           (fresh manifest_disk [7; 7; 7]%nat)
           [ (str "clips/one.mp3", str "hello world");
             (str "clips/two.mp3", str "good bye") ]
           (mkStft 1024 256 1024 2 22050 0 (8000 # 1))).
  - reflexivity.
  - reflexivity.
  - reflexivity.
Defined.

Lemma init_early_failure_witness :
  let hp := config (str "cv/train.tsv") (Some "mozilla_cv"%string)
                   true (Some true) 22050 None None None None in
  let st := fresh manifest_disk [7; 7; 7]%nat in
  snd (init (E := toy_env manifest_disk) hp st) = st
  /\ exists e, fst (init (E := toy_env manifest_disk) hp st) = Raise e.
Proof.
  apply (init_early_failure (E := toy_env manifest_disk)
           (config (str "cv/train.tsv") (Some "mozilla_cv"%string)
                   true (Some true) 22050 None None None None)
           (fresh manifest_disk [7; 7; 7]%nat)).
  right. reflexivity.
Defined.

Lemma init_fetcher_mode_witness :
  let hp := config (str "cv/train.tsv") (Some "LJ"%string)
                   false None 22050 None None None None in
  let st := fresh manifest_disk [7; 7; 7]%nat in
  init (E := toy_env manifest_disk) hp st = (Raise NotImplementedError, st).
Proof.
  apply (init_fetcher_mode (E := toy_env manifest_disk)
           (config (str "cv/train.tsv") (Some "LJ"%string)
                   false None 22050 None None None None)
           (fresh manifest_disk [7; 7; 7]%nat) "LJ"%string).
  - reflexivity.
  - discriminate.
  - discriminate.
Defined.

Lemma init_defaults_witness :
  let hp := config (str "cv/train.tsv") (Some "mozilla_cv"%string)
                   false None 22050 None None None None in
  let self := loader_of_manifest in
  (hp_input_sample_rate hp = None ->
   input_sample_rate self = sampling_rate self
   /\ forall audio,
        resample_target (E := toy_env manifest_disk) self audio = Ok audio)
  /\ (hp_needs_collate hp = None -> needs_collate self = true)
  /\ (hp_return_wavs hp = None -> return_wavs self = false).
Proof.
  apply (init_defaults (E := toy_env manifest_disk)
           (config (str "cv/train.tsv") (Some "mozilla_cv"%string)
                   false None 22050 None None None None)
           (fresh manifest_disk [])
           (@mkState (toy_env manifest_disk)
              [1235; 1236; 1237; 1238; 1239; 1240; 1241]%nat [])
           loader_of_manifest).
  reflexivity.
Defined.

(** ** Feature extraction at its edges *)

Section ExtractionFacts.
Context {E : Env}.

Lemma resample_native_state (self : TextMelLoader) (filename : pystr)
    (audio : list Q) (native : Z) (st : pystate) :
  let r := resample_native self filename audio native st in
  st_random (snd r) = st_random st
  /\ st_stdout (snd r)
     = st_stdout st
       ++ (if native <? input_sample_rate self
           then [LowSampleRate filename native (input_sample_rate self)]
           else []).
Proof.
  unfold resample_native.
  destruct (native =? input_sample_rate self) eqn:Heq; simpl.
  - apply Z.eqb_eq in Heq.
    replace (native <? input_sample_rate self) with false
      by (symmetry; apply Z.ltb_ge; lia).
    now rewrite app_nil_r.
  - unfold bind, lift, ret, print.
    destruct (native <? input_sample_rate self); simpl;
      destruct (truediv (input_sample_rate self) native) as [scale|e]; simpl;
      try destruct (interpolate_area audio scale); simpl;
      rewrite ?app_nil_r; split; reflexivity.
Qed.

Lemma check_and_extract_random (self : TextMelLoader) (filename : pystr)
    (audio : list Q) (st : pystate) :
  st_random (snd (check_and_extract self filename audio st)) = st_random st.
Proof.
  unfold check_and_extract, bind, lift, ret, print.
  destruct (tensor_min audio); [|reflexivity].
  destruct (tensor_max audio); [|reflexivity].
  destruct (out_of_range _ _); [reflexivity|].
  destruct (features self audio); reflexivity.
Qed.

Lemma get_mel_random (self : TextMelLoader) (filename : pystr)
    (st : pystate) :
  st_random (snd (get_mel self filename st)) = st_random st.
Proof.
  unfold get_mel. destruct (load_mel_from_disk self); simpl.
  - unfold bind, lift, assert, ret, raise.
    destruct (np_load filename) as [m|e]; [|reflexivity].
    destruct (size0 m =? _)%nat; reflexivity.
  - unfold bind at 1. unfold lift at 1.
    destruct (load_audio self filename) as [[audio native]|e]; [|reflexivity].
    unfold bind. simpl fst. simpl snd.
    pose proof (resample_native_state self filename audio native st) as [Hr _].
    destruct (resample_native self filename audio native st) as [[a|e] st1];
      simpl in Hr; [|exact Hr].
    now rewrite check_and_extract_random.
Qed.

(** X19: in precomputed mode [get_mel] returns the array read from disk
    when its first size is the configured channel count and raises an
    assertion error when it is not; it never returns [None] and never
    prints. *)
Theorem get_mel_from_disk (self : TextMelLoader) (filename : pystr)
    (st : pystate) :
  load_mel_from_disk self = true ->
  snd (get_mel self filename st) = st
  /\ fst (get_mel self filename st) <> Ok None
  /\ (forall e, np_load filename = Raise e ->
        fst (get_mel self filename st) = Raise e)
  /\ (forall m, np_load filename = Ok m ->
        fst (get_mel self filename st)
        = if (size0 m =? n_mel_channels (self_stft self))%nat
          then Ok (Some m) else Raise AssertionError).
Proof.
  intro Hd. unfold get_mel. rewrite Hd. simpl.
  unfold bind, lift, assert, ret, raise.
  destruct (np_load filename) as [m|e]; simpl.
  - destruct (size0 m =? n_mel_channels (self_stft self))%nat eqn:Hc;
      simpl; repeat split; try discriminate.
    + intros m' [= <-]. now rewrite Hc.
    + intros m' [= <-]. now rewrite Hc.
  - repeat split; try discriminate. now intros e' [= <-].
Qed.

(** X20: the first resampling prints the low-rate warning exactly when the
    file's rate is below [input_sample_rate], prints nothing else, and leaves
    a waveform that already has the requested rate as it is. *)
Theorem resample_native_warning (self : TextMelLoader) (filename : pystr)
    (audio : list Q) (native : Z) (st : pystate) :
  st_stdout (snd (resample_native self filename audio native st))
  = st_stdout st
    ++ (if native <? input_sample_rate self
        then [LowSampleRate filename native (input_sample_rate self)]
        else [])
  /\ (native = input_sample_rate self ->
      resample_native self filename audio native st = (Ok audio, st)).
Proof.
  split; [apply resample_native_state|].
  intros ->. unfold resample_native. now rewrite Z.eqb_refl.
Qed.

(** X21: with [return_wavs], a file at [input_sample_rate], no second
    resampling and every value within [-1, 1], [get_mel] returns the decoded
    waveform itself as a tensor of one row: there is one frame per audio
    sample. *)
Theorem get_mel_waveform_passthrough (self : TextMelLoader)
    (filename : pystr) (audio : list Q) (native : Z) (st : pystate) :
  load_mel_from_disk self = false -> return_wavs self = true ->
  load_audio self filename = Ok (audio, native) ->
  native = input_sample_rate self ->
  input_sample_rate self = sampling_rate self ->
  audio <> [] -> Forall inside audio ->
  get_mel self filename st
  = (Ok (Some (mkTensor2 (length audio) [audio])), st).
Proof.
  intros Hd Hw Hl Hn Hs Hne Hin.
  rewrite (get_mel_raw self filename audio native st Hd Hl).
  unfold resample_native. rewrite Hn, Z.eqb_refl. simpl.
  rewrite check_and_extract_inside by assumption.
  unfold extracted, features, resample_target.
  rewrite Hs, Z.eqb_refl. simpl. now rewrite Hw.
Qed.

(** X22: a file that decodes to no samples at all makes [get_mel] raise
    ([min()] of an empty tensor) instead of returning [None] or features. *)
Theorem get_mel_empty_waveform (self : TextMelLoader) (filename : pystr)
    (native : Z) (st : pystate) :
  load_mel_from_disk self = false ->
  load_audio self filename = Ok ([], native) ->
  native = input_sample_rate self ->
  get_mel self filename st = (Raise RuntimeError, st).
Proof.
  intros Hd Hl Hn.
  rewrite (get_mel_raw self filename [] native st Hd Hl).
  unfold resample_native. rewrite Hn, Z.eqb_refl. reflexivity.
Qed.
End ExtractionFacts.

(** ** Dataset access at its edges *)

Lemma py_index_out {A} (l : list A) (i : Z) :
  out_of_bounds (length l) i -> py_index l i = Raise IndexError.
Proof.
  unfold out_of_bounds, py_index. intro H.
  destruct (i <? 0) eqn:Hneg.
  - apply Z.ltb_lt in Hneg.
    replace ((i + Z.of_nat (length l) <? 0)
             || (Z.of_nat (length l) <=? i + Z.of_nat (length l)))
      with true; [reflexivity|].
    symmetry. apply orb_true_iff. left. apply Z.ltb_lt. lia.
  - apply Z.ltb_ge in Hneg.
    replace ((i <? 0) || (Z.of_nat (length l) <=? i)) with true;
      [reflexivity|].
    symmetry. apply orb_true_iff. right. apply Z.leb_le. lia.
Qed.

Lemma py_index_in_bounds {A} (l : list A) (i : Z) :
  ~ out_of_bounds (length l) i -> exists x, py_index l i = Ok x.
Proof.
  unfold out_of_bounds, py_index. intro H.
  set (j := if i <? 0 then i + Z.of_nat (length l) else i).
  assert (Hj : 0 <= j < Z.of_nat (length l)).
  { unfold j. destruct (i <? 0) eqn:Hneg;
      [apply Z.ltb_lt in Hneg | apply Z.ltb_ge in Hneg]; lia. }
  replace ((j <? 0) || (Z.of_nat (length l) <=? j)) with false
    by (symmetry; apply orb_false_iff; split; lia).
  destruct (nth_error l (Z.to_nat j)) as [x|] eqn:Hn; [eauto|].
  apply nth_error_None in Hn. lia.
Qed.

Section AccessFacts.
Context {E : Env}.

Lemma get_mel_text_pair_inv (self : TextMelLoader) (e : entry)
    (st st1 : pystate) (t : list Z) (m : option tensor2) (p : pystr) :
  get_mel_text_pair self e st = (Ok (t, m, p), st1) ->
  t = get_text self (snd e) /\ p = fst e
  /\ get_mel self (os_path_join (path self) (fst e)) st = (Ok m, st1)
  /\ st_random st1 = st_random st.
Proof.
  unfold get_mel_text_pair, bind, ret. intro H.
  pose proof (get_mel_random self (os_path_join (path self) (fst e)) st) as Hr.
  destruct (get_mel self (os_path_join (path self) (fst e)) st)
    as [[m'|ex] st'] eqn:Hg; [|discriminate].
  injection H as <- <- <- <-. simpl in Hr. repeat split; auto.
Qed.

(** X14: access at a sample that passes the test returns at once: it draws
    no random number, and the file name it hands out is the manifest's
    relative path, not the path joined with the dataset directory. *)
Theorem getitem_valid_sample (depth : nat) (self : TextMelLoader)
    (index : Z) (st st1 : pystate) (e : entry) (t : list Z) (m : tensor2)
    (p : pystr) :
  py_index (audiopaths_and_text self) index = Ok e ->
  get_mel_text_pair self e st = (Ok (t, Some m, p), st1) ->
  invalid self t (Some m) = false ->
  getitem (S depth) self index st = (deliver self t m p, st1)
  /\ st_random st1 = st_random st
  /\ p = fst e
  /\ t = get_text self (snd e).
Proof.
  intros Hi Hp Hv.
  rewrite (getitem_step depth self index st st1 e t (Some m) p Hi Hp), Hv.
  destruct (get_mel_text_pair_inv self e st st1 t (Some m) p Hp)
    as [Ht [Hpf [_ Hr]]].
  repeat split; assumption.
Qed.

(** X15: an index that is no position of the entry list, from either end
    (any index at all when the dataset is empty), raises [IndexError] at once;
    nothing is printed or drawn. *)
Theorem getitem_out_of_bounds (depth : nat) (self : TextMelLoader)
    (index : Z) (st : pystate) :
  out_of_bounds (dataset_len self) index ->
  getitem (S depth) self index st = (Raise IndexError, st).
Proof.
  intro H. simpl. unfold bind at 1. unfold lift at 1.
  unfold dataset_len in H. now rewrite (py_index_out _ _ H).
Qed.

(** X16: when every entry of the dataset is invalid, access never returns a
    sample: whatever the random draws are, it retries until the interpreter's
    stack is used up and ends in [RecursionError]. *)
Theorem getitem_all_invalid (self : TextMelLoader) :
  always_invalid self ->
  forall depth index st,
    ~ out_of_bounds (dataset_len self) index ->
    fst (getitem depth self index st) = Raise RecursionError.
Proof.
  intros Hall depth. induction depth as [|depth IH]; intros index st Hb.
  - reflexivity.
  - unfold dataset_len in *.
    destruct (py_index_in_bounds _ _ Hb) as [e Hi].
    destruct (Hall e st (py_index_in _ _ _ Hi)) as (t & m & p & st1 & Hp & Hv).
    rewrite (getitem_step depth self index st st1 e t m p Hi Hp), Hv.
    destruct (randint_in_range (length (audiopaths_and_text self))
                (after_diagnostic index t m p st1)
                (py_index_nonempty _ _ _ Hi)) as [rv [st3 [Hr [Hrv _]]]].
    rewrite Hr. apply IH. unfold out_of_bounds. lia.
Qed.

(** X17: with [needs_collate] true, what access returns is the tuple
    [(t, m, p)] of a sample of the dataset, unpadded, and within the caps
    that are configured. *)
Theorem getitem_tuple_within_caps (depth : nat) (self : TextMelLoader)
    (index : Z) (st st' : pystate) (it : item) :
  needs_collate self = true ->
  getitem depth self index st = (Ok it, st') ->
  exists e st1 st2 t m p,
    In e (audiopaths_and_text self)
    /\ get_mel_text_pair self e st1 = (Ok (t, Some m, p), st2)
    /\ it = ItemTuple t m p
    /\ (forall c, max_mel_len self = Some c -> Z.of_nat (size1 m) <= c)
    /\ (forall c, max_text_len self = Some c -> Z.of_nat (length t) <= c).
Proof.
  intros Hnc H. apply getitem_returns_valid in H.
  destruct H as (e & st1 & st2 & t & m & p & Hin & Hp & Hv & Hd).
  exists e, st1, st2, t, m, p.
  unfold deliver in Hd. rewrite Hnc in Hd. simpl in Hd. injection Hd as <-.
  unfold invalid in Hv. apply orb_false_iff in Hv. destruct Hv as [Hm Ht].
  repeat split; auto.
  - intros c Hc. unfold exceeds in Hm. rewrite Hc in Hm.
    now apply Z.ltb_ge in Hm.
  - intros c Hc. unfold exceeds in Ht. rewrite Hc in Ht.
    now apply Z.ltb_ge in Ht.
Qed.


End AccessFacts.

(** ** The further properties on concrete inputs *)


Lemma get_mel_from_disk_witness :
  let st := fresh mel_disk [] in
  snd (get_mel from_disk (str "b.npy") st) = st
  /\ fst (get_mel from_disk (str "b.npy") st) <> Ok None
  /\ (forall e, np_load (Env := toy_env mel_disk) (str "b.npy") = Raise e ->
        fst (get_mel from_disk (str "b.npy") st) = Raise e)
  /\ (forall m, np_load (Env := toy_env mel_disk) (str "b.npy") = Ok m ->
        fst (get_mel from_disk (str "b.npy") st)
        = if (size0 m =? n_mel_channels (self_stft from_disk))%nat
          then Ok (Some m) else Raise AssertionError).
Proof.
  apply (get_mel_from_disk (E := toy_env mel_disk) from_disk (str "b.npy")
           (fresh mel_disk [])).
  reflexivity.
Defined.

Lemma resample_native_warning_witness :
  let self := loader [] 4 4 false true None None true in
  let f := str "soft.flac" in
  let st := fresh audio_disk [] in
  let audio := [1 # 2; -1 # 4]%Q in
  st_stdout (snd (resample_native self f audio 2 st))
  = st_stdout st
    ++ (if 2 <? input_sample_rate self
        then [LowSampleRate f 2 (input_sample_rate self)]
        else [])
  /\ (2 = input_sample_rate self ->
      resample_native self f audio 2 st = (Ok audio, st)).
Proof.
  apply (resample_native_warning (E := toy_env audio_disk)
           (loader [] 4 4 false true None None true) (str "soft.flac")
           [1 # 2; -1 # 4]%Q 2 (fresh audio_disk [])).
Defined.

Lemma get_mel_waveform_passthrough_witness :
  let self := loader [] 2 2 false true None None true in
  let st := fresh audio_disk [] in
  get_mel self (str "soft.flac") st
  = (Ok (Some (mkTensor2 (length [1 # 2; -1 # 4]%Q) [[1 # 2; -1 # 4]%Q])), st).
Proof.
  apply (get_mel_waveform_passthrough (E := toy_env audio_disk)
           (loader [] 2 2 false true None None true) (str "soft.flac")
           [1 # 2; -1 # 4]%Q 2 (fresh audio_disk [])).
  - reflexivity.
  - reflexivity.
  - reflexivity.
  - reflexivity.
  - reflexivity.
  - discriminate.
  - repeat constructor; unfold inside; simpl; lra.
Defined.

Lemma get_mel_empty_waveform_witness :
  let self := loader [] 2 2 false true None None true in
  let st := fresh silent_disk [] in
  get_mel self (str "none.flac") st = (Raise RuntimeError, st).
Proof.
  apply (get_mel_empty_waveform (E := toy_env silent_disk)
           (loader [] 2 2 false true None None true) (str "none.flac") 2
           (fresh silent_disk [])).
  - reflexivity.
  - reflexivity.
  - reflexivity.
Defined.

Lemma getitem_valid_sample_witness :
  let st := fresh dataset_disk [] in
  let e := (str "soft.flac", str "hi") in
  getitem 1 capped 1 st
  = (deliver capped [104; 105] soft_mel (str "soft.flac"), st)
  /\ st_random st = st_random st
  /\ str "soft.flac" = fst e
  /\ [104; 105] = get_text (E := toy_env dataset_disk) capped (snd e).
Proof.
  apply (getitem_valid_sample (E := toy_env dataset_disk) 0 capped 1
           (fresh dataset_disk []) (fresh dataset_disk [])
           (str "soft.flac", str "hi") [104; 105] soft_mel (str "soft.flac")).
  - reflexivity.
  - reflexivity.
  - reflexivity.
Defined.

Lemma getitem_out_of_bounds_witness :
  let st := fresh dataset_disk [] in
  getitem 1 capped (-3) st = (Raise IndexError, st).
Proof.
  apply (getitem_out_of_bounds (E := toy_env dataset_disk) 0 capped (-3)
           (fresh dataset_disk [])).
  left. vm_compute. reflexivity.
Defined.

Lemma all_long_always_invalid :
  always_invalid (E := toy_env dataset_disk) all_long.
Proof.
  intros e st [<-|[]].
  exists [104; 105], (Some long_mel), (str "long.flac"), st.
  split; reflexivity.
Qed.

Lemma getitem_all_invalid_witness :
  fst (getitem 50 all_long 0 (fresh dataset_disk [])) = Raise RecursionError.
Proof.
  apply (getitem_all_invalid (E := toy_env dataset_disk) all_long
           all_long_always_invalid 50 0 (fresh dataset_disk [])).
  unfold out_of_bounds, dataset_len. simpl. lia.
Defined.

Lemma getitem_tuple_within_caps_witness :
  let it := ItemTuple [104; 105] soft_mel (str "soft.flac") in
  exists e st1 st2 t m p,
    In e (audiopaths_and_text capped)
    /\ get_mel_text_pair (E := toy_env dataset_disk) capped e st1
       = (Ok (t, Some m, p), st2)
    /\ it = ItemTuple t m p
    /\ (forall c, max_mel_len capped = Some c -> Z.of_nat (size1 m) <= c)
    /\ (forall c, max_text_len capped = Some c -> Z.of_nat (length t) <= c).
Proof.
  apply (getitem_tuple_within_caps (E := toy_env dataset_disk) 1 capped 1
           (fresh dataset_disk []) (fresh dataset_disk [])).
  - reflexivity.
  - reflexivity.
Defined.


(* ================================================================= *)
(** * The gate by positions, the manifest by its own columns *)


Section GatePositions.
Context {TS : TorchSort}.

End GatePositions.


(** ** Rows and their columns *)

Lemma split_on_clean (sep : N) (c : pystr) :
  ~ In sep c -> split_on sep c = [c].
Proof.
  induction c as [|a c IH]; intro H; simpl; [reflexivity|].
  destruct (a =? sep)%N eqn:Ha.
  - apply N.eqb_eq in Ha. exfalso. apply H. now left.
  - rewrite IH; [reflexivity|]. intro Hin. apply H. now right.
Qed.

Lemma split_on_cons_col (sep : N) (c rest : pystr) :
  ~ In sep c -> split_on sep (c ++ sep :: rest) = c :: split_on sep rest.
Proof.
  induction c as [|a c IH]; intro H; simpl.
  - now rewrite N.eqb_refl.
  - destruct (a =? sep)%N eqn:Ha.
    + apply N.eqb_eq in Ha. exfalso. apply H. now left.
    + rewrite IH; [reflexivity|]. intro Hin. apply H. now right.
Qed.

(** Splitting what [join] built gives the columns back. *)
Lemma split_on_join (sep : N) (cols : list pystr) :
  cols <> [] -> Forall (fun c => ~ In sep c) cols ->
  split_on sep (join sep cols) = cols.
Proof.
  induction cols as [|c cols IH]; [congruence|]. intros _ Hall.
  inversion Hall as [|? ? Hc Hrest]; subst.
  destruct cols as [|c' cols'].
  - simpl. now apply split_on_clean.
  - change (join sep (c :: c' :: cols'))
      with (c ++ sep :: join sep (c' :: cols')).
    rewrite split_on_cons_col by assumption.
    f_equal. apply IH; [discriminate|assumption].
Qed.

Lemma lstrip_blank (lead s : pystr) :
  blank lead -> lstrip (lead ++ s) = lstrip s.
Proof.
  induction 1 as [|c lead Hc _ IH]; simpl; [reflexivity|].
  now rewrite Hc.
Qed.

Lemma blank_rev (s : pystr) : blank s -> blank (rev s).
Proof.
  unfold blank. intro H. apply Forall_forall. intros c Hc.
  rewrite Forall_forall in H. apply H. now apply in_rev.
Qed.

(** [strip] removes the white space around a content that neither begins
    nor ends with white space, and nothing of the content. *)
Lemma strip_content (lead t trail : pystr) :
  blank lead -> blank trail -> t <> [] ->
  is_space (hd 0%N t) = false -> is_space (last t 0%N) = false ->
  strip (lead ++ t ++ trail) = t.
Proof.
  intros Hlead Htrail Hne Hh Hl. unfold strip.
  rewrite (lstrip_blank lead (t ++ trail) Hlead).
  rewrite (lstrip_keep (t ++ trail))
    by (destruct t; [congruence | exact Hh]).
  rewrite rev_app_distr.
  rewrite (lstrip_blank (rev trail) (rev t) (blank_rev trail Htrail)).
  rewrite (lstrip_keep (rev t)); [apply rev_involutive|].
  destruct (exists_last Hne) as [b [e ->]].
  rewrite last_last in Hl. rewrite rev_app_distr. exact Hl.
Qed.

Lemma columns_row_of (line : pystr) (cols : list pystr) :
  row_of line cols -> columns line = cols.
Proof.
  intros (lead & trail & -> & Hlead & Htrail & Hcols & Hne & Hh & Hl).
  unfold columns. rewrite strip_content by assumption.
  apply split_on_join; [|assumption].
  intros ->. now apply Hne.
Qed.

Section ManifestRows.
Context {E : Env}.

(** C7, amended: for a [mozilla_cv] manifest whose rows after the first
    neither begin nor end with white space (the line terminator and other
    white space around a row apart) and have at least three tab-separated
    columns, the loader discards the first row and yields, in the order of
    the file, for every other row the entry whose path is [clips/] followed
    by column 1 and whose transcript is column 2. *)
Theorem load_mozilla_cv_columns (filename : pystr) (lines : list pystr)
    (rows : list (list pystr)) :
  open_utf8 filename = Ok lines ->
  Forall2 row_of (tl lines) rows ->
  Forall (fun cols => (3 <= length cols)%nat) rows ->
  load_mozilla_cv filename
  = Ok (map (fun cols => (str "clips/" ++ nth 1 cols [], nth 2 cols []))
            rows).
Proof.
  intros Hopen Hrows Hlen.
  assert (Hcols : map columns (tl lines) = rows).
  { clear Hlen. induction Hrows as [|line cols ls rs Hrow _ IH];
      [reflexivity|].
    simpl. now rewrite (columns_row_of line cols Hrow), IH. }
  rewrite (load_mozilla_cv_rows filename lines Hopen).
  - rewrite <- Hcols, map_map. reflexivity.
  - rewrite <- Hcols in Hlen. rewrite Forall_map in Hlen. exact Hlen.
Qed.
End ManifestRows.

(** C7 as stated fails: the loader strips the line before it splits it.  A
    row that begins with a tab has an empty column 0, [one.mp3] as column 1
    and [hello] as column 2; the loader drops the leading tab with the white
    space and yields the path [clips/hello] and the transcript [2]. *)
Lemma load_mozilla_cv_leading_tab :
  nth 1 leading_tab_row [] = str "one.mp3"
  /\ nth 2 leading_tab_row [] = str "hello"
  /\ split_on tab (join tab leading_tab_row) = leading_tab_row
  /\ load_mozilla_cv (E := toy_env leading_tab_disk) (str "m.tsv")
     = Ok [ (str "clips/hello", str "2") ]
  /\ load_mozilla_cv (E := toy_env leading_tab_disk) (str "m.tsv")
     <> Ok [ (str "clips/" ++ nth 1 leading_tab_row [],
              nth 2 leading_tab_row []) ].
Proof.
  split; [reflexivity|]. split; [reflexivity|]. split; [reflexivity|].
  split; [reflexivity|]. vm_compute. discriminate.
Qed.

Lemma tsv_row_of (cols : list pystr) :
  Forall (fun c => ~ In tab c) cols ->
  join tab cols <> [] ->
  is_space (hd 0%N (join tab cols)) = false ->
  is_space (last (join tab cols) 0%N) = false ->
  row_of (join tab cols ++ [10%N]) cols.
Proof.
  intros Hc Hne Hh Hl. exists [], [10%N].
  split; [reflexivity|]. split; [constructor|].
  split; [constructor; [reflexivity | constructor]|].
  repeat split; assumption.
Qed.

Lemma load_mozilla_cv_columns_witness :
  load_mozilla_cv (E := toy_env manifest_disk) (str "cv/train.tsv")
  = Ok (map (fun cols => (str "clips/" ++ nth 1 cols [], nth 2 cols []))
            [ [str "f00"; str "one.mp3"; str "hello world"; str "2"];
              [str "f01"; str "two.mp3"; str "good bye"; str "3"] ]).
Proof.
  apply (load_mozilla_cv_columns (E := toy_env manifest_disk)
           (str "cv/train.tsv") manifest_lines).
  - reflexivity.
  - unfold manifest_lines. cbn [tl].
    apply Forall2_cons.
    { exact (tsv_row_of
               [str "f00"; str "one.mp3"; str "hello world"; str "2"]
               ltac:(repeat (apply Forall_cons;
                             [vm_compute; intuition discriminate|]);
                     apply Forall_nil)
               ltac:(vm_compute; discriminate)
               eq_refl eq_refl). }
    apply Forall2_cons.
    { exact (tsv_row_of
               [str "f01"; str "two.mp3"; str "good bye"; str "3"]
               ltac:(repeat (apply Forall_cons;
                             [vm_compute; intuition discriminate|]);
                     apply Forall_nil)
               ltac:(vm_compute; discriminate)
               eq_refl eq_refl). }
    apply Forall2_nil.
  - repeat (apply Forall_cons; [vm_compute; lia|]). apply Forall_nil.
Defined.
